(** * transcript_whisper.py: splitting a recording, transcribing the clips,
      and stitching the transcripts back onto one timeline

    A shallow embedding of [src/AI/transcript_whisper.py].  The Python
    runtime the script relies on (exceptions, [int] and [float] arithmetic,
    [range], format specifications, [os.path]) is modelled in [Module Py];
    the script itself is embedded in [Module Whisper], one definition per
    source function and under the source's names. *)

From Stdlib Require Import ZArith SpecFloat Lia Ascii.
From stdpp Require Import base numbers strings pretty list gmap sorting.

Local Open Scope Z_scope.

(** ** The Python runtime *)

Module Py.

(** Exceptions the script can meet. *)
Inductive exc : Type :=
| ValueError
| OverflowError
| ZeroDivisionError
| FileNotFoundError
| CouldntDecodeError
| OpenAIError
| APIError (code : Z).

(** The outcome of evaluating an expression: a value or a raised
    exception. *)
Inductive res (A : Type) : Type :=
| Ok (a : A)
| Raise (e : exc).
Arguments Ok {A} a.
Arguments Raise {A} e.

Definition bind {A B} (r : res A) (k : A -> res B) : res B :=
  match r with
  | Ok a => k a
  | Raise e => Raise e
  end.

Declare Scope py_scope.
Delimit Scope py_scope with py.
Notation "x <- r ;; k" := (bind r (fun x => k))
  (at level 100, r at next level, right associativity) : py_scope.

(** *** Binary64 floats

    Python's [float] is IEEE 754 binary64.  The operations are those of
    the Standard Library's executable specification of IEEE arithmetic
    ([SpecFloat]) at precision 53 and maximal exponent 1024. *)

Definition prec : Z := 53.
Definition emax : Z := 1024.

Definition float : Type := spec_float.

Definition fzero : float := S754_zero false.

Definition fadd : float -> float -> float := SFadd prec emax.
Definition fsub : float -> float -> float := SFsub prec emax.
Definition fmul : float -> float -> float := SFmul prec emax.
Definition fdiv : float -> float -> float := SFdiv prec emax.

(** The correctly rounded float of an integer. *)
Definition float_of_Z (z : Z) : float := binary_normalize prec emax z 0 false.

(** A decimal literal [n / 10^d], as Python reads it: the nearest float
    (ties to even).  For [|n| < 2^53] and [d <= 22] both operands are
    exact, so the correctly rounded quotient is the correctly rounded
    literal. *)
Definition float_lit (n : Z) (d : nat) : float :=
  fdiv (float_of_Z n) (float_of_Z (10 ^ Z.of_nat d)).

Definition is_zero (x : float) : bool := SFeqb x fzero.
Definition is_neg (x : float) : bool := SFltb x fzero.

Definition sign_of (x : float) : bool :=
  match x with
  | S754_zero s | S754_infinity s | S754_finite s _ _ => s
  | S754_nan => false
  end.

(** C's [copysign(0.0, x)]. *)
Definition copysign0 (x : float) : float := S754_zero (sign_of x).

(** C's [fmod]: the remainder of the truncated division, with the sign
    of the dividend; it is exact. *)
Definition fmod (x y : float) : float :=
  match x, y with
  | S754_nan, _ | _, S754_nan => S754_nan
  | S754_infinity _, _ => S754_nan
  | _, S754_zero _ => S754_nan
  | S754_zero _, _ => x
  | S754_finite _ _ _, S754_infinity _ => x
  | S754_finite sx mx ex, S754_finite _ my ey =>
      let e := Z.min ex ey in
      let X := Z.pos mx * 2 ^ (ex - e) in
      let Y := Z.pos my * 2 ^ (ey - e) in
      match X mod Y with
      | Z.pos r => binary_round prec emax sx r e
      | _ => S754_zero sx
      end
  end.

(** The integer part of a finite float, rounded toward minus infinity
    ([floor_Z]) or toward zero ([trunc_Z]). *)
Definition floor_Z (s : bool) (m : positive) (e : Z) : Z :=
  let v := if s then Z.neg m else Z.pos m in
  if 0 <=? e then v * 2 ^ e else v `div` 2 ^ (- e).

Definition trunc_Z (s : bool) (m : positive) (e : Z) : Z :=
  let a := if 0 <=? e then Z.pos m * 2 ^ e else Z.pos m `div` 2 ^ (- e) in
  if s then - a else a.

(** C's [floor]. *)
Definition ffloor (x : float) : float :=
  match x with
  | S754_finite s m e =>
      if 0 <=? e then x
      else binary_normalize prec emax (floor_Z s m e) 0 s
  | _ => x
  end.

(** [float.__mod__] (CPython's [float_rem]). *)
Definition float_rem (vx wx : float) : res float :=
  if is_zero wx then Raise ZeroDivisionError
  else
    let md := fmod vx wx in
    Ok (if negb (is_zero md)
        then (if negb (Bool.eqb (is_neg wx) (is_neg md)) then fadd md wx else md)
        else copysign0 wx).

(** [float.__floordiv__] (CPython's [float_floor_div]). *)
Definition float_floor_div (vx wx : float) : res float :=
  if is_zero wx then Raise ZeroDivisionError
  else
    let md := fmod vx wx in
    let div0 := fdiv (fsub vx md) wx in
    let div :=
      if negb (is_zero md) && negb (Bool.eqb (is_neg wx) (is_neg md))
      then fsub div0 (float_of_Z 1) else div0 in
    Ok (if negb (is_zero div)
        then
          let fl := ffloor div in
          if SFltb (float_lit 5 1) (fsub div fl) then fadd fl (float_of_Z 1) else fl
        else copysign0 (fdiv vx wx)).

(** [int(x)] for a float [x]. *)
Definition int_of_float (x : float) : res Z :=
  match x with
  | S754_nan => Raise ValueError
  | S754_infinity _ => Raise OverflowError
  | S754_zero _ => Ok 0
  | S754_finite s m e => Ok (trunc_Z s m e)
  end.

(** [float(n)] for an integer [n]. *)
Definition float_of_int (n : Z) : res float :=
  match float_of_Z n with
  | S754_infinity _ => Raise OverflowError
  | f => Ok f
  end.

(** *** Numbers: [int] or [float] *)

Inductive num : Type :=
| Int (n : Z)
| Float (x : float).

Definition to_float (a : num) : res float :=
  match a with
  | Int n => float_of_int n
  | Float x => Ok x
  end.

(** An arithmetic operator: on two ints the integer operation, otherwise
    both operands are converted to float. *)
Definition arith (iop : Z -> Z -> res Z) (fop : float -> float -> res float)
    (a b : num) : res num :=
  match a, b with
  | Int m, Int n => (r <- iop m n ;; Ok (Int r))%py
  | _, _ => (x <- to_float a ;; y <- to_float b ;; r <- fop x y ;; Ok (Float r))%py
  end.

Definition add : num -> num -> res num :=
  arith (fun m n => Ok (m + n)) (fun x y => Ok (fadd x y)).
Definition sub : num -> num -> res num :=
  arith (fun m n => Ok (m - n)) (fun x y => Ok (fsub x y)).
Definition mul : num -> num -> res num :=
  arith (fun m n => Ok (m * n)) (fun x y => Ok (fmul x y)).
Definition floordiv : num -> num -> res num :=
  arith (fun m n => if n =? 0 then Raise ZeroDivisionError else Ok (m `div` n))
        float_floor_div.
Definition mod_ : num -> num -> res num :=
  arith (fun m n => if n =? 0 then Raise ZeroDivisionError else Ok (m `mod` n))
        float_rem.

(** [int(a)]. *)
Definition int (a : num) : res Z :=
  match a with
  | Int n => Ok n
  | Float x => int_of_float x
  end.

(** *** Formatting integers *)

Fixpoint zeros (n : nat) : string :=
  match n with
  | O => ""
  | S n => "0" +:+ zeros n
  end.

(** [str(n)]. *)
Definition str_int (n : Z) : string := pretty n.

(** [format(n, "0w")], as in [f"{n:02}"]: sign first, then zeros up to
    the width [w], then the digits. *)
Definition format_0 (w : nat) (n : Z) : string :=
  let sign := if n <? 0 then "-" else "" in
  let digits := pretty (Z.abs n) in
  sign +:+ zeros (w - String.length sign - String.length digits) +:+ digits.

(** *** [range], strings and [os.path] (POSIX) *)

(** [list(range(start, stop, step))]: a zero step is a [ValueError]. *)
Definition range (start stop step : Z) : res (list Z) :=
  if step =? 0 then Raise ValueError
  else
    let n :=
      if 0 <? step
      then (if start <? stop then (stop - start - 1) `div` step + 1 else 0)
      else (if stop <? start then (start - stop - 1) `div` (- step) + 1 else 0) in
    Ok ((fun k : nat => start + Z.of_nat k * step) <$> seq 0 (Z.to_nat n)).

(** [c in s] for a character [c]. *)
Fixpoint contains (c : ascii) (s : string) : bool :=
  match s with
  | EmptyString => false
  | String a r => bool_decide (a = c) || contains c r
  end.

Definition slash : ascii := "/"%char.
Definition dot : ascii := "."%char.

(** [s[s.rfind(c) + 1:]]: what follows the last [c], all of [s] when it
    holds none. *)
Fixpoint after_last (c : ascii) (s : string) : string :=
  match s with
  | EmptyString => ""
  | String a r =>
      if contains c r then after_last c r
      else if bool_decide (a = c) then r else s
  end.

(** [s.split(c)[0]]: what precedes the first [c], all of [s] when it
    holds none. *)
Fixpoint before_first (c : ascii) (s : string) : string :=
  match s with
  | EmptyString => ""
  | String a r => if bool_decide (a = c) then "" else String a (before_first c r)
  end.

(** [os.path.basename(p)] is [p[p.rfind("/") + 1:]]. *)
Definition basename (p : string) : string := after_last slash p.

(** [s.split(".")[0]]. *)
Definition before_first_dot (s : string) : string := before_first dot s.

Definition starts_with_slash (s : string) : bool :=
  match s with
  | String a _ => bool_decide (a = slash)
  | EmptyString => false
  end.

Fixpoint ends_with_slash (s : string) : bool :=
  match s with
  | EmptyString => false
  | String a EmptyString => bool_decide (a = slash)
  | String _ r => ends_with_slash r
  end.

(** [os.path.join(a, b)]. *)
Definition join (a b : string) : string :=
  if starts_with_slash b then b
  else if bool_decide (a = "") || ends_with_slash a then a +:+ b
  else a +:+ "/" +:+ b.

End Py.

Import Py.

(** ** The world outside the script *)

(** Audio as [pydub] holds it, at the granularity the script uses: one
    entry per millisecond of samples. *)
Definition AudioSegment : Type := list string.

(** [audio[start:end]] on millisecond positions. *)
Definition audio_slice (a : AudioSegment) (start stop : Z) : AudioSegment :=
  take (Z.to_nat (stop - start)) (drop (Z.to_nat start) a).

(** A timed segment of a transcription and the service's verbose answer
    ([TranscriptionVerbose]); [tv_segments] is [None] when the answer has no
    ["segments"] entry. *)
Record segment : Type := Segment {
  seg_start : float;
  seg_end : float;
  seg_text : string
}.

Record TranscriptionVerbose : Type := Transcription {
  tv_text : string;
  tv_segments : option (list segment)
}.

(** The service client: it holds the credential it was built with. *)
Record OpenAI : Type := Client { api_key : string }.

(** The collaborators the script calls and does not define: the mp3 codec
    of [pydub], the directory enumeration of the operating system (whose
    order is arbitrary), the process environment and the transcription
    service. *)
Record externals : Type := Externals {
  decode_mp3 : string -> res AudioSegment;
  encode_mp3 : AudioSegment -> string;
  listdir : gmap string string -> string -> list string;
  environ : gmap string string;
  transcriptions_create : OpenAI -> string -> res TranscriptionVerbose
}.

(** What the script does to the outside, in order. *)
Inductive event : Type :=
| Exported (path : string)
| Transcribed (client : OpenAI) (path : string)
| Written (path : string).

(** The file system (path to contents) and the log of effects. *)
Record world : Type := World {
  files : gmap string string;
  trace : list event
}.

Definition log (ev : event) (w : world) : world :=
  {| files := files w; trace := trace w ++ [ev] |}.

Definition write_file (path contents : string) (w : world) : world :=
  {| files := <[path := contents]> (files w); trace := trace w |}.

(** ** The script *)

Module Whisper.

(** The base name of a source path: [os.path.basename(file_name).split(".")[0]],
    lines 32 and 147. *)
Definition stem (file_name : string) : string :=
  before_first_dot (basename file_name).

(** The name of clip [index], line 52. *)
Definition clip_name (base : string) (index start_time end_time : Z) : string :=
  base +:+ "_" +:+ str_int index +:+ "_" +:+ str_int start_time
       +:+ "_" +:+ str_int end_time +:+ ".mp3".

(** The loop of [split_file], lines 46-60, over the start times that
    [range] produced. *)
Fixpoint split_loop (ext : externals) (source_audio : AudioSegment)
    (base output_dir : string) (slice_duration total_duration : Z)
    (starts : list Z) (index : Z) (w : world) : world :=
  match starts with
  | [] => w
  | start_time :: rest =>
      let end_time := Z.min (start_time + slice_duration) total_duration in
      let clipped_audio := audio_slice source_audio start_time end_time in
      let output_file :=
        join output_dir (clip_name base index start_time end_time) in
      let w' :=
        match files w !! output_file with
        | None => log (Exported output_file)
                    (write_file output_file (encode_mp3 ext clipped_audio) w)
        | Some _ => w
        end in
      split_loop ext source_audio base output_dir slice_duration total_duration
                 rest (index + 1) w'
  end.

(** [split_file], lines 25-62.  Directories are implicit in the path map,
    so [os.makedirs] leaves it as it is. *)
Definition split_file (ext : externals) (file_name : string) (split_size : Z)
    (w : world) : res string * world :=
  let base := stem file_name in
  match files w !! file_name with
  | None => (Raise FileNotFoundError, w)
  | Some bytes =>
      match decode_mp3 ext bytes with
      | Raise e => (Raise e, w)
      | Ok source_audio =>
          let slice_duration := split_size * 60 * 1000 in
          let total_duration := Z.of_nat (length source_audio) in
          let output_dir := join "slices" base in
          match range 0 total_duration slice_duration with
          | Raise e => (Raise e, w)
          | Ok starts =>
              (Ok output_dir,
               split_loop ext source_audio base output_dir slice_duration
                          total_duration starts 0 w)
          end
      end
  end.

(** [seconds_to_vtt_time], lines 102-107. *)
Definition seconds_to_vtt_time (seconds : num) : res string :=
  (h <- floordiv seconds (Int 3600) ;;
   hours <- int h ;;
   r <- mod_ seconds (Int 3600) ;;
   m <- floordiv r (Int 60) ;;
   minutes <- int m ;;
   seconds <- mod_ seconds (Int 60) ;;
   whole <- int seconds ;;
   frac <- sub seconds (Int whole) ;;
   ms <- mul frac (Int 1000) ;;
   milliseconds <- int ms ;;
   Ok (format_0 2 hours +:+ ":" +:+ format_0 2 minutes +:+ ":"
       +:+ format_0 2 whole +:+ "." +:+ format_0 3 milliseconds))%py.

(** One cue block, lines 120-126. *)
Definition cue (offset_seconds : Z) (sg : segment) : res string :=
  (start <- add (Float (seg_start sg)) (Int offset_seconds) ;;
   end_ <- add (Float (seg_end sg)) (Int offset_seconds) ;;
   start_time <- seconds_to_vtt_time start ;;
   end_time <- seconds_to_vtt_time end_ ;;
   Ok (start_time +:+ " --> " +:+ end_time +:+ "
" +:+ seg_text sg +:+ "

"))%py.

(** The loop of [convert_to_vtt], lines 119-126. *)
Fixpoint cues (offset_seconds : Z) (segments : list segment)
    (vtt_output : string) : res string :=
  match segments with
  | [] => Ok vtt_output
  | sg :: rest =>
      (c <- cue offset_seconds sg ;;
       cues offset_seconds rest (vtt_output +:+ c))%py
  end.

Definition header : string := "WEBVTT

".

(** [convert_to_vtt], lines 110-127. *)
Definition convert_to_vtt (transcription_result : TranscriptionVerbose)
    (offset : Z) : res string :=
  let segments := default [] (tv_segments transcription_result) in
  let offset_seconds := offset * 60 in
  let vtt_output := if offset =? 0 then header else "" in
  cues offset_seconds segments vtt_output.

(** The client of lines 74-79: [OpenAI(api_key=...)] with the given key,
    or [OpenAI()], which reads [OPENAI_API_KEY] from the environment and
    raises when it is not set. *)
Definition make_client (ext : externals) (openai_api_key : string) : res OpenAI :=
  if bool_decide (openai_api_key ≠ "") then Ok (Client openai_api_key)
  else match environ ext !! "OPENAI_API_KEY" with
       | Some k => Ok (Client k)
       | None => Raise OpenAIError
       end.

(** The loop of [get_transcript], lines 83-98, over what is left of
    [enumerate(audio_files)]. *)
Fixpoint transcribe_loop (ext : externals) (client : OpenAI)
    (audio_dir : string) (split_size : Z) (output_format : string)
    (audio_files : list string) (index : Z) (transcription : string)
    (w : world) : res string * world :=
  match audio_files with
  | [] => (Ok transcription, w)
  | audio_file :: rest =>
      let file_path := join audio_dir audio_file in
      match files w !! file_path with
      | None => (Raise FileNotFoundError, w)
      | Some bytes =>
          let w' := log (Transcribed client file_path) w in
          match transcriptions_create ext client bytes with
          | Raise e => (Raise e, w')
          | Ok file_transcription =>
              let piece :=
                if bool_decide (output_format = "vtt")
                then convert_to_vtt file_transcription (index * split_size)
                else Ok (tv_text file_transcription) in
              match piece with
              | Raise e => (Raise e, w')
              | Ok p =>
                  transcribe_loop ext client audio_dir split_size output_format
                                  rest (index + 1) (transcription +:+ p) w'
              end
          end
      end
  end.

(** [get_transcript], lines 65-99. *)
Definition get_transcript (ext : externals) (audio_dir openai_api_key : string)
    (split_size : Z) (output_format : string) (w : world) : res string * world :=
  match make_client ext openai_api_key with
  | Raise e => (Raise e, w)
  | Ok client =>
      let audio_files := listdir ext (files w) audio_dir in
      transcribe_loop ext client audio_dir split_size output_format
                      audio_files 0 "" w
  end.

(** [main], lines 130-152. *)
Definition main (ext : externals) (file_name : string) (split_size : Z)
    (format openai_api_key : string) (only_split : bool) (w : world)
    : res unit * world :=
  match split_file ext file_name split_size w with
  | (Raise e, w1) => (Raise e, w1)
  | (Ok audio_dir, w1) =>
      if only_split then (Ok (), w1)
      else
        match get_transcript ext audio_dir openai_api_key split_size format w1 with
        | (Raise e, w2) => (Raise e, w2)
        | (Ok transcription, w2) =>
            let outfile := stem file_name +:+ "." +:+ format in
            (Ok (), log (Written outfile) (write_file outfile transcription w2))
        end
  end.

End Whisper.

Import Whisper.

(** ** Specification-level views of the loops *)

(** The clips [split_file] visits: index, start and end (milliseconds), in
    loop order. *)
Definition clips_from (slice_duration total_duration : Z) (starts : list Z)
    : list (Z * Z * Z) :=
  imap (fun i start_time =>
          (Z.of_nat i, start_time, Z.min (start_time + slice_duration) total_duration))
       starts.

Definition clips (split_size total_duration : Z) : list (Z * Z * Z) :=
  match range 0 total_duration (split_size * 60 * 1000) with
  | Ok starts => clips_from (split_size * 60 * 1000) total_duration starts
  | Raise _ => []
  end.

Definition clip_path (base : string) (c : Z * Z * Z) : string :=
  join (join "slices" base) (clip_name base c.1.1 c.1.2 c.2).

(** The body of the loop of [split_file] on one clip. *)
Definition export_clip (ext : externals) (source_audio : AudioSegment)
    (base : string) (w : world) (c : Z * Z * Z) : world :=
  match files w !! clip_path base c with
  | None => log (Exported (clip_path base c))
              (write_file (clip_path base c)
                 (encode_mp3 ext (audio_slice source_audio c.1.2 c.2)) w)
  | Some _ => w
  end.

(** [D / S] rounded up. *)
Definition ceil_div (d s : Z) : Z := (d + s - 1) `div` s.

(** The contribution of one listed file to the merged document: the body
    of the loop of [get_transcript], lines 85-98. *)
Definition piece (ext : externals) (client : OpenAI) (fs : gmap string string)
    (audio_dir : string) (split_size : Z) (output_format : string)
    (index : Z) (audio_file : string) : res string :=
  match fs !! join audio_dir audio_file with
  | None => Raise FileNotFoundError
  | Some bytes =>
      (file_transcription <- transcriptions_create ext client bytes ;;
       if bool_decide (output_format = "vtt")
       then convert_to_vtt file_transcription (index * split_size)
       else Ok (tv_text file_transcription))%py
  end.

(** The contributions of the listed files, in the order of the listing,
    up to the first exception. *)
Fixpoint pieces (ext : externals) (client : OpenAI) (fs : gmap string string)
    (audio_dir : string) (split_size : Z) (output_format : string)
    (audio_files : list string) (index : Z) : res (list string) :=
  match audio_files with
  | [] => Ok []
  | audio_file :: rest =>
      (p <- piece ext client fs audio_dir split_size output_format index audio_file ;;
       ps <- pieces ext client fs audio_dir split_size output_format rest (index + 1) ;;
       Ok (p :: ps))%py
  end.

(** [f] on each element in turn, up to the first exception. *)
Fixpoint traverse {A B : Type} (f : A -> res B) (l : list A) : res (list B) :=
  match l with
  | [] => Ok []
  | a :: rest => (b <- f a ;; bs <- traverse f rest ;; Ok (b :: bs))%py
  end.

(** Strings one after the other. *)
Definition concat_str (l : list string) : string := foldr String.append "" l.

(** One cue block of a segment whose times were rebased to [start] and
    [end_]. *)
Definition cue_block (start_time end_time text : string) : string :=
  start_time +:+ " --> " +:+ end_time +:+ "
" +:+ text +:+ "

".

(** A character that [str] of an integer never produces. *)
Definition not_digit_or_minus (c : ascii) : Prop :=
  c ≠ "-"%char /\ forall d, pretty_N_char d ≠ c.

(** ** Binary64 values

    The floats the script meets are finite; their values are counted in
    units of [2^-1074], the smallest positive float, so that every finite
    float is a whole number of units. *)

Definition emin : Z := -1074.

(** The value of a finite float in units of [2^emin], the smallest
    positive float. *)
Definition units (m : positive) (e : Z) : Z := Z.pos m * 2 ^ (e - emin).

(** One second, in units. *)
Definition second : Z := 2 ^ 1074.

(** The value of a float in units; the floats that are not finite count
    for nothing. *)
Definition val (x : float) : Z :=
  match x with
  | S754_finite s m e => if s then - units m e else units m e
  | _ => 0
  end.

(** The finite floats that are not negative, in canonical form. *)
Definition nonneg (x : float) : Prop :=
  match x with
  | S754_zero _ => True
  | S754_finite false m e => bounded prec emax m e = true
  | _ => False
  end.

(** The numbers of units the format holds exactly. *)
Definition representable (v : Z) : Prop :=
  v = 0 \/ exists z k, v = z * 2 ^ k /\ 0 < z < 2 ^ 53 /\ 0 <= k <= 2045.

(** The four fields of a time of [v] units: hours, minutes, seconds, and
    what is left of a second, in units. *)
Definition hours_of (v : Z) : Z := v `div` (3600 * second).
Definition minutes_of (v : Z) : Z := (v `mod` (3600 * second)) `div` (60 * second).
Definition seconds_of (v : Z) : Z := (v `mod` (60 * second)) `div` second.
Definition fraction_of (v : Z) : Z := v `mod` second.

Definition vtt_time (hours minutes whole milliseconds : Z) : string :=
  format_0 2 hours +:+ ":" +:+ format_0 2 minutes +:+ ":"
  +:+ format_0 2 whole +:+ "." +:+ format_0 3 milliseconds.

Definition digits_at_most (k : nat) (bound : nat) : bool :=
  forallb (fun n => String.length (pretty (Z.of_nat n)) <=? k)%nat (seq 0 bound).

(** The float of Python's literal [0.11699999999999999]. *)
Definition just_below_117ms : float := S754_finite false 8430738502437568 (-56).


(** Rounding to nearest, ties to even: the quotient [q] of a division by
    [g] that left [rem]. *)
Definition rne (q rem g : Z) : Z :=
  if 2 * rem <? g then q
  else if g <? 2 * rem then q + 1
  else if Z.even q then q else q + 1.

(** A number of units rounded to the format: at most 53 digits are kept. *)
Definition round_units (v : Z) : Z :=
  let g := 2 ^ Z.max (Zdigits2 v - 53) 0 in
  rne (v `div` g) (v `mod` g) g * g.

(** The milliseconds [seconds_to_vtt_time] prints for a time of [v]
    units, line 106: the fraction of a second times 1000, rounded to the
    format, cut to an integer. *)
Definition milliseconds_of (v : Z) : Z :=
  round_units (fraction_of v * 1000) `div` second.

(** The floats of Python's literals [-1e-20] and
    [1.4475014964441887e+19] (above [2^63]). *)
Definition just_below_zero : float := S754_finite true 6646139978924579 (-119).
Definition above_2_63 : float := S754_finite false 7067878400606390 11.

(** A clip-local time rebased by a whole number of seconds: the [+] of
    lines 120-121 on a float and an integer. *)
Definition rebased (offset_seconds : Z) (t : float) : float :=
  fadd t (float_of_Z offset_seconds).

Definition le_val (a b : float) : Prop := val a <= val b.

(** What a sane service answers for a clip of [split_size] minutes: start
    times that are not negative, within the clip, and in ascending order. *)
Definition well_timed (split_size : Z) (tv : TranscriptionVerbose) : Prop :=
  Forall (fun sg => nonneg (seg_start sg)
                    /\ val (seg_start sg) <= split_size * 60 * second)
         (default [] (tv_segments tv))
  /\ StronglySorted (fun a b => val (seg_start a) <= val (seg_start b))
       (default [] (tv_segments tv)).

(** The rebased start times of the cues of a document, in the order of
    the document, the first transcription being that of clip [index]. *)
Fixpoint start_times (split_size index : Z) (tvs : list TranscriptionVerbose)
    : list float :=
  match tvs with
  | [] => []
  | tv :: rest =>
      (rebased (index * split_size * 60) ∘ seg_start <$> default [] (tv_segments tv))
      ++ start_times split_size (index + 1) rest
  end.

(** A cue block whose first time is the float [t] as the script prints
    it. *)
Definition starts_at (t : float) (block : string) : Prop :=
  exists start_time end_time text,
    seconds_to_vtt_time (Float t) = Ok start_time
    /\ block = cue_block start_time end_time text.


(** ** A small recording, for examples

    A recording ["talk.v2.mp3"] of five milliseconds, a directory holding
    two clips of a longer recording, and a service that knows these two
    clips. *)

Definition demo_audio : AudioSegment := ["s0"; "s1"; "s2"; "s3"; "s4"].

Definition demo_clip0 : string := "talk_0_0_600000.mp3".
Definition demo_clip1 : string := "talk_1_600000_900000.mp3".

Definition demo_files : gmap string string :=
  <["talk.v2.mp3" := "recording"]>
    (<["slices/talk/talk_0_0_600000.mp3" := "audio-0"]>
       (<["slices/talk/talk_1_600000_900000.mp3" := "audio-1"]> ∅)).

Definition demo_service (client : OpenAI) (bytes : string) : res TranscriptionVerbose :=
  if bool_decide (bytes = "audio-0")
  then Ok (Transcription "Bonjour."
             (Some [Segment (float_lit 15 1) (float_lit 40 1) "Bonjour."]))
  else if bool_decide (bytes = "audio-1")
  then Ok (Transcription "Au revoir."
             (Some [Segment (float_lit 20 1) (float_lit 35 1) "Au revoir."]))
  else Raise (APIError 400).

(** The collaborators, with the enumeration [listing] of every directory. *)
Definition demo_ext (listing : list string) : externals :=
  {| decode_mp3 := fun bytes =>
       if bool_decide (bytes = "recording") then Ok demo_audio
       else Raise CouldntDecodeError;
     encode_mp3 := fun a => concat_str a;
     listdir := fun _ _ => listing;
     environ := ∅;
     transcriptions_create := demo_service |}.

Definition demo_world : world := {| files := demo_files; trace := [] |}.

(** A service that answers from a script: for the bytes of each clip, the
    segments of its transcription. *)
Fixpoint scripted_service (script : list (string * list segment))
    (client : OpenAI) (bytes : string) : res TranscriptionVerbose :=
  match script with
  | [] => Raise (APIError 400)
  | (b, segments) :: rest =>
      if bool_decide (bytes = b) then Ok (Transcription "" (Some segments))
      else scripted_service rest client bytes
  end.

Definition scripted_ext (script : list (string * list segment))
    (listing : list string) : externals :=
  {| decode_mp3 := fun _ => Raise CouldntDecodeError;
     encode_mp3 := concat_str;
     listdir := fun _ _ => listing;
     environ := ∅;
     transcriptions_create := scripted_service script |}.

(** A directory ["d"] of four clips. *)
Definition four_clips : world :=
  {| files := <["d/c0" := "a0"]> (<["d/c1" := "a1"]>
                (<["d/c2" := "a2"]> (<["d/c3" := "a3"]> ∅)));
     trace := [] |}.

(** A slice size, in minutes, whose multiples in seconds are not all
    floats, and the last float within a clip of that size. *)
Definition huge_split_size : Z := 73989502927906172.
Definition end_of_huge_clip : float := S754_finite false 8670644874364004 9.

(** ** Strings *)

Lemma app_str_cons x (a b : string) : String x a +:+ b = String x (a +:+ b).
Proof. reflexivity. Qed.

Lemma app_str_assoc (a b c : string) : (a +:+ b) +:+ c = a +:+ (b +:+ c).
Proof. induction a as [|x a IH]; [done|]. rewrite !app_str_cons. by f_equal. Qed.

Lemma app_str_nil_r (a : string) : a +:+ "" = a.
Proof. induction a as [|x a IH]; [done|]. rewrite app_str_cons. by f_equal. Qed.

Lemma concat_str_app l1 l2 : concat_str (l1 ++ l2) = concat_str l1 +:+ concat_str l2.
Proof.
  induction l1 as [|a l1 IH]; simpl; [done|]. by rewrite IH, app_str_assoc.
Qed.

(** ** Binary64 arithmetic *)

Lemma emin_eq : SpecFloat.emin prec emax = emin.
Proof. reflexivity. Qed.

Lemma fexp_eq k : fexp prec emax k = Z.max (k - 53) emin.
Proof. reflexivity. Qed.

Lemma digits2_pos_bounds (m : positive) :
  2 ^ (Z.pos (digits2_pos m) - 1) <= Z.pos m < 2 ^ Z.pos (digits2_pos m).
Proof.
  induction m as [m IH|m IH|]; cbn [digits2_pos].
  - rewrite Pos2Z.inj_succ. replace (Z.succ (Z.pos (digits2_pos m)) - 1) with (Z.pos (digits2_pos m) - 1 + 1) by lia.
    rewrite Z.pow_succ_r by lia. rewrite Z.pow_add_r by lia. lia.
  - rewrite Pos2Z.inj_succ. replace (Z.succ (Z.pos (digits2_pos m)) - 1) with (Z.pos (digits2_pos m) - 1 + 1) by lia.
    rewrite Z.pow_succ_r by lia. rewrite Z.pow_add_r by lia. lia.
  - simpl. lia.
Qed.

(** The number of digits is the one position that brackets the number. *)
Lemma digits2_unique (m : positive) d :
  2 ^ (d - 1) <= Z.pos m < 2 ^ d -> Z.pos (digits2_pos m) = d.
Proof.
  intros [Hl Hu]. pose proof (digits2_pos_bounds m) as [Hl' Hu'].
  assert (0 < d). { destruct (Z.le_gt_cases d 0); [|done]. 
    assert (2 ^ d <= 2 ^ 0) by (apply Z.pow_le_mono_r; lia). simpl in *. lia. }
  destruct (Z.lt_trichotomy (Z.pos (digits2_pos m)) d) as [H1|[H1|H1]]; [|done|].
  - assert (2 ^ Z.pos (digits2_pos m) <= 2 ^ (d - 1)) by (apply Z.pow_le_mono_r; lia). lia.
  - assert (2 ^ d <= 2 ^ (Z.pos (digits2_pos m) - 1)) by (apply Z.pow_le_mono_r; lia). lia.
Qed.

Lemma digits2_shift (m : positive) (k : Z) :
  0 <= k -> Zdigits2 (Z.pos m * 2 ^ k) = Z.pos (digits2_pos m) + k.
Proof.
  intros Hk. pose proof (digits2_pos_bounds m) as [Hl Hu].
  assert (0 < 2 ^ k) by (apply Z.pow_pos_nonneg; lia).
  destruct (Z.pos m * 2 ^ k) as [|p|p] eqn:E; try lia.
  cbn [Zdigits2]. apply digits2_unique. rewrite <- E.
  replace (Z.pos (digits2_pos m) + k - 1) with (Z.pos (digits2_pos m) - 1 + k) by lia.
  rewrite !Z.pow_add_r by lia. nia.
Qed.

(** Shifting a multiple of [2^p] right by [p] places loses nothing. *)
Lemma iter_pos_nat {A} (f : A -> A) p x : SpecFloat.iter_pos f p x = Nat.iter (Pos.to_nat p) f x.
Proof.
  revert x. induction p as [p IH|p IH|]; intros x; cbn [SpecFloat.iter_pos].
  - rewrite !IH. rewrite Pos2Nat.inj_xI. cbn [Nat.iter]. 
    rewrite <- Nat.iter_add. rewrite <- Nat.iter_succ_r. f_equal. lia.
  - rewrite !IH. rewrite Pos2Nat.inj_xO. rewrite <- Nat.iter_add. f_equal. lia.
  - done.
Qed.

Lemma shr_1_even (m : Z) : 0 <= m ->
  shr_1 {| shr_m := 2 * m; shr_r := false; shr_s := false |}
  = {| shr_m := m; shr_r := false; shr_s := false |}.
Proof. intros H. destruct m as [|p|p]; try lia; reflexivity. Qed.

Lemma shr_nat_exact (k : nat) (m : Z) : 0 <= m ->
  Nat.iter k shr_1 {| shr_m := m * 2 ^ Z.of_nat k; shr_r := false; shr_s := false |}
  = {| shr_m := m; shr_r := false; shr_s := false |}.
Proof.
  revert m. induction k as [|k IH]; intros m Hm.
  - simpl. f_equal. lia.
  - rewrite Nat.iter_succ_r. 
    replace (m * 2 ^ Z.of_nat (S k)) with (2 * (m * 2 ^ Z.of_nat k)).
    2:{ rewrite Nat2Z.inj_succ, Z.pow_succ_r by lia. lia. }
    rewrite shr_1_even by (apply Z.mul_nonneg_nonneg; [lia|apply Z.pow_nonneg; lia]).
    by apply IH.
Qed.

Lemma shr_exact (m : Z) (e n : Z) : 0 <= m -> 0 <= n ->
  shr {| shr_m := m * 2 ^ n; shr_r := false; shr_s := false |} e n
  = ({| shr_m := m; shr_r := false; shr_s := false |}, e + n).
Proof.
  intros Hm Hn. destruct n as [|p|p]; try lia.
  - simpl. rewrite Z.mul_1_r, Z.add_0_r. done.
  - unfold shr. rewrite iter_pos_nat. f_equal.
    rewrite <- (positive_nat_Z p). by apply shr_nat_exact.
Qed.

Lemma Zdigits2_pos (m : positive) : Zdigits2 (Z.pos m) = Z.pos (digits2_pos m).
Proof. reflexivity. Qed.

Lemma pow2_pos k : 0 <= k -> 0 < 2 ^ k.
Proof. intros. apply Z.pow_pos_nonneg; lia. Qed.

(** Rounding a mantissa that has at least the digits of its format and
    whose low bits, those below the format's exponent, are zero: the low
    bits are dropped and nothing else happens. *)
Lemma round_aux_exact (s : bool) (q : positive) (e n : Z) :
  0 <= n ->
  fexp prec emax (Z.pos (digits2_pos q) + n + e) = e + n ->
  e + n <= emax - prec ->
  binary_round_aux prec emax s (Z.pos q * 2 ^ n) e loc_Exact = S754_finite s q (e + n).
Proof.
  intros Hn Hf Hmax. unfold binary_round_aux, shr_fexp.
  rewrite digits2_shift by done. 
  replace (fexp prec emax (Z.pos (digits2_pos q) + n + e) - e) with n by lia.
  cbn [shr_record_of_loc]. rewrite shr_exact by lia.
  cbn [shr_m loc_of_shr_record round_nearest_even].
  rewrite Zdigits2_pos.
  replace (fexp prec emax (Z.pos (digits2_pos q) + (e + n)) - (e + n)) with 0.
  2:{ replace (Z.pos (digits2_pos q) + (e + n)) with (Z.pos (digits2_pos q) + n + e) by lia. lia. }
  cbn [shr shr_m]. destruct (Z.leb_spec (e + n) (emax - prec)); [done|lia].
Qed.

Lemma pos_iter_xO (m d : positive) : Z.pos (Pos.iter xO m d) = Z.pos m * 2 ^ Z.pos d.
Proof.
  induction d as [|d IH] using Pos.peano_ind.
  - simpl. lia.
  - rewrite Pos.iter_succ, Pos2Z.inj_succ, Z.pow_succ_r by lia.
    rewrite Pos2Z.inj_xO, IH. lia.
Qed.

(** Rounding is exact on what the format can represent: a number of
    units [z * 2^k] with [z] below [2^53]. *)
Lemma binary_round_exact (s : bool) (m : positive) (e z k : Z) :
  emin <= e ->
  units m e = z * 2 ^ k -> 0 < z < 2 ^ 53 -> 0 <= k <= 2045 ->
  exists m' e',
    binary_round prec emax s m e = S754_finite s m' e'
    /\ bounded prec emax m' e' = true
    /\ units m' e' = units m e.
Proof.
  intros He Hu Hz Hk. unfold units in *.
  pose proof (digits2_pos_bounds m) as [Hl Hh].
  set (d := Z.pos (digits2_pos m)) in *.
  assert (0 < d) as Hd by (unfold d; lia).
  set (e0 := fexp prec emax (d + e)).
  assert (e0 = Z.max (d + e - 53) emin) as He0 by reflexivity.
  pose proof (pow2_pos (e - emin) ltac:(lia)) as Ha.
  pose proof (pow2_pos k ltac:(lia)) as Hk2.
  (* d + (e - emin) <= 53 + k *)
  assert (d - 1 + (e - emin) < 53 + k) as Hdk.
  { apply (Z.pow_lt_mono_r_iff 2); [lia|lia|]. rewrite !Z.pow_add_r by lia. nia. }
  assert (e0 <= emax - prec) as Hmax by (unfold emax, prec, emin in *; lia).
  unfold binary_round. fold d. fold e0. unfold shl_align.
  destruct (e0 - e) as [|p|p] eqn:Ep.
  - (* already at the format's exponent *)
    exists m, e. split; [|split; [|done]].
    + pose proof (round_aux_exact s m e 0 ltac:(lia)) as H.
      rewrite Z.mul_1_r, !Z.add_0_r in H. apply H; fold d; fold e0; lia.
    + unfold bounded, canonical_mantissa. fold d. fold e0.
      apply andb_true_iff. split; [apply Z.eqb_eq; lia| apply Z.leb_le; lia].
  - (* low bits to drop: they are zero *)
    set (n := Z.pos p) in *. assert (e0 = e + n) as He0' by lia.
    assert (d + e - 53 = e + n) as Hdn by (unfold emin in *; lia).
    assert (exists q, Z.pos m = q * 2 ^ n) as [q Hq].
    { exists (z * 2 ^ (k - (e - emin) - n)).
      assert (z * 2 ^ k = z * 2 ^ (k - (e - emin) - n) * 2 ^ n * 2 ^ (e - emin)) as E.
      { rewrite <- !Z.mul_assoc, <- !Z.pow_add_r by lia. do 2 f_equal. lia. }
      rewrite E in Hu. nia. }
    assert (0 < q) as Hq0. { pose proof (pow2_pos n ltac:(lia)). nia. }
    destruct q as [|q|q]; try lia.
    exists q, (e + n). 
    assert (Z.pos (digits2_pos q) + n = d) as Hdq.
    { pose proof (digits2_shift q n ltac:(lia)) as H. rewrite <- Hq in H. exact (eq_sym H). }
    split; [|split].
    + rewrite Hq. apply round_aux_exact; [lia| rewrite Hdq; fold e0; lia | lia].
    + unfold bounded, canonical_mantissa. 
      replace (Z.pos (digits2_pos q) + (e + n)) with (d + e) by lia. fold e0.
      apply andb_true_iff. split; [apply Z.eqb_eq; lia| apply Z.leb_le; lia].
    + rewrite Hq. replace (e + n - emin) with (n + (e - emin)) by lia.
      rewrite Z.pow_add_r by lia. lia.
  - (* room to spare: the mantissa is shifted left *)
    set (n := Z.pos p) in *. assert (e = e0 + n) as He0' by lia.
    cbn [fst snd].
    exists (Pos.iter xO m p), e0. split; [|split].
    + pose proof (round_aux_exact s (Pos.iter xO m p) e0 0 ltac:(lia)) as H.
      rewrite Z.mul_1_r, !Z.add_0_r in H. apply H; [|lia].
      pose proof (digits2_shift m n ltac:(lia)) as H'. unfold n in H'.
      rewrite <- pos_iter_xO in H'. fold n in H'. cbn [Zdigits2] in H'. rewrite H'.
      fold d. replace (d + n + e0) with (d + e) by lia. done.
    + unfold bounded, canonical_mantissa.
      pose proof (digits2_shift m n ltac:(lia)) as H'. unfold n in H'.
      rewrite <- pos_iter_xO in H'. fold n in H'. cbn [Zdigits2] in H'. rewrite H'.
      fold d. replace (d + n + e0) with (d + e) by lia. fold e0.
      apply andb_true_iff. split; [apply Z.eqb_eq; lia| apply Z.leb_le; lia].
    + rewrite pos_iter_xO. fold n. rewrite He0'.
      replace (e0 + n - emin) with (n + (e0 - emin)) by lia.
      rewrite Z.pow_add_r by (unfold emin in *; lia). lia.
Qed.

Lemma bounded_inv m e :
  bounded prec emax m e = true ->
  e = Z.max (Z.pos (digits2_pos m) + e - 53) emin /\ e <= 971.
Proof.
  unfold bounded, canonical_mantissa. intros [H1 H2]%andb_true_iff.
  apply Z.eqb_eq in H1. apply Z.leb_le in H2. rewrite fexp_eq in H1.
  unfold emax, prec in *. lia.
Qed.

Lemma units_pos m e : emin <= e -> 0 < units m e.
Proof. intros. unfold units. pose proof (pow2_pos (e - emin) ltac:(lia)). lia. Qed.

Lemma units_bounds m e :
  emin <= e ->
  2 ^ (Z.pos (digits2_pos m) - 1 + (e - emin)) <= units m e
  < 2 ^ (Z.pos (digits2_pos m) + (e - emin)).
Proof.
  intros He. unfold units. pose proof (digits2_pos_bounds m) as [Hl Hh].
  pose proof (pow2_pos (e - emin) ltac:(lia)).
  assert (0 < Z.pos (digits2_pos m)) by lia.
  rewrite !Z.pow_add_r by lia. nia.
Qed.

Lemma nonneg_val x : nonneg x -> 0 <= val x.
Proof.
  destruct x as [| | |[] m e]; simpl; try done; try lia.
  intros [He _]%bounded_inv. pose proof (units_pos m e ltac:(lia)). lia.
Qed.

Lemma bounded_representable m e :
  bounded prec emax m e = true -> representable (units m e).
Proof.
  intros [He Hmax]%bounded_inv. right. exists (Z.pos m), (e - emin).
  split; [done|]. split; [|unfold emin in *; lia].
  split; [lia|]. pose proof (digits2_pos_bounds m) as [Hl Hh].
  assert (Z.pos (digits2_pos m) <= 53) by lia.
  assert (2 ^ Z.pos (digits2_pos m) <= 2 ^ 53) by (apply Z.pow_le_mono_r; lia). lia.
Qed.

(** A number of units has one canonical form. *)
Lemma bounded_unique m e m' e' :
  bounded prec emax m e = true -> bounded prec emax m' e' = true ->
  units m e = units m' e' -> m = m' /\ e = e'.
Proof.
  intros [He _]%bounded_inv [He' _]%bounded_inv Hu.
  assert (emin <= e) by lia. assert (emin <= e') by lia.
  pose proof (units_bounds m e ltac:(done)) as [Hl Hh].
  pose proof (units_bounds m' e' ltac:(done)) as [Hl' Hh'].
  set (d := Z.pos (digits2_pos m)) in *. set (d' := Z.pos (digits2_pos m')) in *.
  assert (0 < d) by (unfold d; lia). assert (0 < d') by (unfold d'; lia).
  assert (d + (e - emin) = d' + (e' - emin)) as Hd.
  { destruct (Z.lt_trichotomy (d + (e - emin)) (d' + (e' - emin))) as [Hlt|[?|Hlt]]; [|done|].
    - assert (2 ^ (d + (e - emin)) <= 2 ^ (d' - 1 + (e' - emin))) by (apply Z.pow_le_mono_r; lia). lia.
    - assert (2 ^ (d' + (e' - emin)) <= 2 ^ (d - 1 + (e - emin))) by (apply Z.pow_le_mono_r; lia). lia. }
  assert (e = e') as <- by lia. split; [|done].
  unfold units in Hu. pose proof (pow2_pos (e - emin) ltac:(lia)).
  assert (Z.pos m = Z.pos m') by nia. congruence.
Qed.

Lemma nonneg_unique x y : nonneg x -> nonneg y -> 0 < val x -> val x = val y -> x = y.
Proof.
  destruct x as [| | |[] m e]; simpl; try done; try lia.
  destruct y as [| | |[] m' e']; simpl; try done; try lia.
  intros Hx Hy _ Hu. destruct (bounded_unique m e m' e' Hx Hy Hu) as [-> ->]. done.
Qed.

(** Rounding a representable number of units. *)
Lemma binary_normalize_exact (z e : Z) :
  emin <= e -> 0 <= z -> representable (z * 2 ^ (e - emin)) ->
  nonneg (binary_normalize prec emax z e false)
  /\ val (binary_normalize prec emax z e false) = z * 2 ^ (e - emin).
Proof.
  intros He Hz Hr. destruct z as [|m|m]; try lia.
  - simpl. done.
  - pose proof (pow2_pos (e - emin) ltac:(lia)).
    destruct Hr as [Hr|(z & k & Hzk & Hz' & Hk)]; [lia|].
    destruct (binary_round_exact false m e z k He Hzk Hz' Hk) as (m' & e' & Hr & Hb & Hu).
    unfold binary_normalize. rewrite Hr. done.
Qed.

Lemma float_of_Z_exact (z : Z) :
  0 <= z < 2 ^ 53 ->
  nonneg (float_of_Z z) /\ val (float_of_Z z) = z * second.
Proof.
  intros Hz. apply binary_normalize_exact; [unfold emin; lia|lia|].
  destruct (decide (z = 0)) as [->|]; [by left|].
  right. exists z, 1074. split; [done|]. lia.
Qed.

Lemma bounded_mantissa m e : bounded prec emax m e = true -> Z.pos m < 2 ^ 53.
Proof.
  intros [He _]%bounded_inv. pose proof (digits2_pos_bounds m) as [_ Hh].
  assert (2 ^ Z.pos (digits2_pos m) <= 2 ^ 53) by (apply Z.pow_le_mono_r; lia). lia.
Qed.

Lemma bounded_exp m e : bounded prec emax m e = true -> emin <= e <= 971.
Proof. intros [He ?]%bounded_inv. lia. Qed.

Lemma shl_align_fst m e e' :
  e' <= e -> Z.pos (fst (shl_align m e e')) = Z.pos m * 2 ^ (e - e').
Proof.
  intros H. unfold shl_align. destruct (e' - e) as [|p|p] eqn:E; try lia.
  - replace (e - e') with 0 by lia. simpl. lia.
  - cbn [fst]. rewrite pos_iter_xO. do 2 f_equal. lia.
Qed.

Lemma units_rescale m e e0 :
  emin <= e0 <= e -> units m e = Z.pos m * 2 ^ (e - e0) * 2 ^ (e0 - emin).
Proof.
  intros. unfold units. rewrite <- Z.mul_assoc, <- Z.pow_add_r by lia.
  do 2 f_equal. lia.
Qed.

(** [fmod] is exact: the remainder, in units. *)
Lemma fmod_val x y :
  nonneg x -> nonneg y -> 0 < val y ->
  nonneg (fmod x y) /\ val (fmod x y) = val x `mod` val y.
Proof.
  intros Hx Hy Hpos.
  destruct y as [| | |[] my ey]; simpl in Hy, Hpos; try done; try lia.
  destruct x as [| | |[] mx ex]; simpl in Hx; try done.
  pose proof (bounded_exp _ _ Hx) as Hex. pose proof (bounded_exp _ _ Hy) as Hey.
  pose proof (bounded_mantissa _ _ Hx) as Hmx. pose proof (bounded_mantissa _ _ Hy) as Hmy.
  cbn [fmod val]. set (e := Z.min ex ey).
  set (X := Z.pos mx * 2 ^ (ex - e)). set (Y := Z.pos my * 2 ^ (ey - e)).
  assert (emin <= e <= ex /\ e <= ey) as (He & He') by (unfold e; lia).
  pose proof (pow2_pos (ex - e) ltac:(lia)). pose proof (pow2_pos (ey - e) ltac:(lia)).
  pose proof (pow2_pos (e - emin) ltac:(lia)).
  assert (0 < Y) by (unfold Y; lia). assert (0 < X) by (unfold X; lia).
  rewrite (units_rescale mx ex e), (units_rescale my ey e) by lia.
  fold X Y. rewrite Z.mul_mod_distr_r by lia.
  pose proof (Z.mod_pos_bound X Y ltac:(lia)) as [Hr0 HrY].
  assert (X `mod` Y <= X) as HrX by (apply Z.mod_le; lia).
  destruct (X `mod` Y) as [|r|r] eqn:Er; try lia.
  - simpl. done.
  - assert (Z.pos r < 2 ^ 53) as Hr53.
    { destruct (Z.le_ge_cases ex ey).
      + assert (e = ex) as Ee by (unfold e; lia).
        assert (X = Z.pos mx) by (unfold X; rewrite Ee, Z.sub_diag; lia). lia.
      + assert (e = ey) as Ee by (unfold e; lia).
        assert (Y = Z.pos my) by (unfold Y; rewrite Ee, Z.sub_diag; lia). lia. }
    destruct (binary_round_exact false r e (Z.pos r) (e - emin)) as (m' & e' & -> & Hb & Hu);
      [lia|done|lia|unfold emin in *; lia|].
    done.
Qed.

(** A subtraction whose result the format holds is exact. *)
Lemma fsub_val x y :
  nonneg x -> nonneg y -> val y <= val x -> representable (val x - val y) ->
  nonneg (fsub x y) /\ val (fsub x y) = val x - val y.
Proof.
  intros Hx Hy Hle Hr.
  destruct x as [sx| | |[] mx ex]; simpl in Hx; try done;
    destruct y as [sy| | |[] my ey]; simpl in Hy; try done.
  - destruct sx, sy; simpl; done.
  - pose proof (bounded_exp _ _ Hy). pose proof (units_pos my ey ltac:(lia)).
    simpl in Hle. lia.
  - simpl. split; [done|lia].
  - pose proof (bounded_exp _ _ Hx) as Hex. pose proof (bounded_exp _ _ Hy) as Hey.
    cbn [val] in *. unfold fsub. cbn [SFsub cond_Zopp].
    set (e := Z.min ex ey).
    assert (emin <= e <= ex /\ e <= ey) as (He & He') by (unfold e; lia).
    rewrite !shl_align_fst by lia.
    rewrite (units_rescale mx ex e), (units_rescale my ey e) in * by lia.
    pose proof (pow2_pos (e - emin) ltac:(lia)).
    rewrite <- Z.mul_sub_distr_r in *.
    apply binary_normalize_exact; [lia|nia|done].
Qed.

(** [int] of a float drops the fraction. *)
Lemma int_of_float_val x : nonneg x -> int_of_float x = Ok (val x `div` second).
Proof.
  destruct x as [| | |[] m e]; simpl; try done. intros Hb.
  pose proof (bounded_exp _ _ Hb) as He. f_equal. unfold trunc_Z, units, second.
  destruct (Z.leb_spec 0 e).
  - replace (e - emin) with (e + 1074) by (unfold emin; lia).
    rewrite Z.pow_add_r, Z.mul_assoc by lia. rewrite Z.div_mul; [done|]. 
    pose proof (pow2_pos 1074 ltac:(lia)). lia.
  - replace (2 ^ 1074) with (2 ^ (- e) * 2 ^ (e - emin)).
    2:{ rewrite <- Z.pow_add_r by (unfold emin in *; lia). f_equal. unfold emin. lia. }
    rewrite Z.div_mul_cancel_r; [done| |]; apply Z.pow_nonzero; unfold emin in *; lia.
Qed.

(** [floor] of a float that is not negative. *)
Lemma ffloor_val x :
  nonneg x -> nonneg (ffloor x) /\ val (ffloor x) = val x `div` second * second.
Proof.
  destruct x as [| | |[] m e]; simpl; try done. intros Hb.
  pose proof (bounded_exp _ _ Hb) as He. pose proof (bounded_mantissa _ _ Hb) as Hm.
  pose proof (int_of_float_val (S754_finite false m e) Hb) as Hi. simpl in Hi.
  injection Hi as Hi. rewrite <- Hi. unfold trunc_Z.
  destruct (Z.leb_spec 0 e).
  - split; [done|]. simpl. unfold units, second.
    replace (e - emin) with (e + 1074) by (unfold emin; lia).
    rewrite Z.pow_add_r by lia. lia.
  - unfold floor_Z. destruct (Z.leb_spec 0 e); [lia|].
    assert (0 <= Z.pos m `div` 2 ^ (- e) < 2 ^ 53) as Hq.
    { pose proof (pow2_pos (- e) ltac:(lia)). split; [apply Z.div_pos; lia|].
      apply Z.div_lt_upper_bound; [lia|]. nia. }
    apply (float_of_Z_exact _ Hq).
Qed.

Lemma is_zero_val x : nonneg x -> is_zero x = bool_decide (val x = 0).
Proof.
  destruct x as [| | |[] m e]; simpl; try done. intros Hb.
  pose proof (bounded_exp _ _ Hb). pose proof (units_pos m e ltac:(lia)).
  rewrite bool_decide_eq_false_2 by lia. done.
Qed.

Lemma is_neg_nonneg x : nonneg x -> is_neg x = false.
Proof. destruct x as [| | |[] m e]; simpl; done. Qed.

Lemma Zdigits2_bounds z : 0 < z -> 2 ^ (Zdigits2 z - 1) <= z < 2 ^ Zdigits2 z.
Proof. destruct z as [|p|p]; try lia. intros _. apply digits2_pos_bounds. Qed.

Lemma Zdigits2_le z k : 0 < z < 2 ^ k -> 0 <= k -> 0 < Zdigits2 z <= k.
Proof.
  intros [Hz Hk] Hk0. pose proof (Zdigits2_bounds z Hz) as [Hl Hh].
  assert (0 < Zdigits2 z) by (destruct z; simpl; lia). split; [done|].
  destruct (Z.le_gt_cases (Zdigits2 z) k); [done|].
  assert (2 ^ k <= 2 ^ (Zdigits2 z - 1)) by (apply Z.pow_le_mono_r; lia). lia.
Qed.

(** The canonical form of a positive integer below [2^53]. *)
Lemma float_of_Z_form (z : Z) :
  0 < z < 2 ^ 53 ->
  exists m, Z.pos m = z * 2 ^ (53 - Zdigits2 z) /\ digits2_pos m = 53%positive /\
            float_of_Z z = S754_finite false m (Zdigits2 z - 53).
Proof.
  intros Hz. pose proof (Zdigits2_bounds z ltac:(lia)) as [Hl Hh].
  pose proof (Zdigits2_le z 53 Hz ltac:(lia)) as Hd. set (d := Zdigits2 z) in *.
  pose proof (pow2_pos (53 - d) ltac:(lia)).
  destruct (z * 2 ^ (53 - d)) as [|m|m] eqn:Em; try lia.
  exists m. split; [done|].
  assert (Z.pos (digits2_pos m) = 53) as Hdm.
  { apply digits2_unique. rewrite <- Em.
    replace (2 ^ (53 - 1)) with (2 ^ (d - 1) * 2 ^ (53 - d))
      by (rewrite <- Z.pow_add_r by lia; f_equal; lia).
    replace (2 ^ 53) with (2 ^ d * 2 ^ (53 - d))
      by (rewrite <- Z.pow_add_r by lia; f_equal; lia).
    nia. }
  split; [lia|].
  destruct (float_of_Z_exact z ltac:(lia)) as [Hn Hv].
  symmetry. apply nonneg_unique.
  - simpl. unfold bounded, canonical_mantissa. rewrite Hdm, fexp_eq.
    apply andb_true_iff. split; [apply Z.eqb_eq; unfold emin; lia|apply Z.leb_le; unfold emax, prec; lia].
  - done.
  - simpl. apply units_pos. unfold emin. lia.
  - rewrite Hv. simpl. unfold units, second. rewrite <- Em.
    rewrite <- Z.mul_assoc, <- Z.pow_add_r by (unfold emin; lia).
    do 2 f_equal. unfold emin. lia.
Qed.

Lemma new_location_0 n : new_location n 0 = loc_Exact.
Proof. unfold new_location, new_location_even, new_location_odd. by destruct (Z.even n). Qed.

(** Dividing a multiple by its factor is exact. *)
Lemma fdiv_multiple (c q : Z) :
  0 < c -> 0 < q -> c * q < 2 ^ 53 ->
  fdiv (float_of_Z (c * q)) (float_of_Z c) = float_of_Z q.
Proof.
  intros Hc Hq Hcq.
  assert (0 < c < 2 ^ 53) as Hc' by nia. assert (0 < q < 2 ^ 53) as Hq' by nia.
  destruct (float_of_Z_form (c * q) ltac:(nia)) as (m1 & Hm1 & Hd1 & ->).
  destruct (float_of_Z_form c Hc') as (m2 & Hm2 & Hd2 & ->).
  destruct (float_of_Z_form q Hq') as (mq & Hmq & Hdq & ->).
  pose proof (Zdigits2_bounds (c * q) ltac:(nia)) as [Hl1 Hh1].
  pose proof (Zdigits2_bounds c ltac:(lia)) as [Hl2 Hh2].
  pose proof (Zdigits2_bounds q ltac:(lia)) as [Hlq Hhq].
  pose proof (Zdigits2_le (c * q) 53 ltac:(nia) ltac:(lia)) as Hdcq.
  pose proof (Zdigits2_le c 53 Hc' ltac:(lia)) as Hdc.
  pose proof (Zdigits2_le q 53 Hq' ltac:(lia)) as Hdq'.
  set (d1 := Zdigits2 (c * q)) in *. set (d2 := Zdigits2 c) in *. set (dq := Zdigits2 q) in *.
  (* the digits of a product *)
  assert (d1 <= d2 + dq) as Hsum.
  { destruct (Z.le_gt_cases d1 (d2 + dq)); [done|].
    assert (2 ^ (d2 + dq) <= 2 ^ (d1 - 1)) by (apply Z.pow_le_mono_r; lia).
    rewrite Z.pow_add_r in * by lia. nia. }
  unfold fdiv. cbn [SFdiv xorb]. unfold SFdiv_core_binary.
  rewrite !Zdigits2_pos, Hd1, Hd2.
  replace (fexp prec emax (53 + (d1 - 53) - (53 + (d2 - 53)))) with (d1 - d2 - 53)
    by (rewrite fexp_eq; unfold emin; lia).
  replace (Z.min (d1 - d2 - 53) (d1 - 53 - (d2 - 53))) with (d1 - d2 - 53) by lia.
  replace (d1 - 53 - (d2 - 53) - (d1 - d2 - 53)) with 53 by lia.
  rewrite Z.shiftl_mul_pow2 by lia.
  set (n := d2 + dq - d1).
  assert (Z.pos m1 * 2 ^ 53 = Z.pos m2 * (Z.pos mq * 2 ^ n)) as Hprod.
  { rewrite Hm1, Hm2, Hmq. unfold n.
    replace (c * q * 2 ^ (53 - d1) * 2 ^ 53) with (c * q * (2 ^ (53 - d1) * 2 ^ 53)) by lia.
    replace (c * 2 ^ (53 - d2) * (q * 2 ^ (53 - dq) * 2 ^ (d2 + dq - d1)))
      with (c * q * (2 ^ (53 - d2) * 2 ^ (53 - dq) * 2 ^ (d2 + dq - d1))) by lia.
    rewrite <- !Z.pow_add_r by lia. do 2 f_equal. lia. }
  rewrite Hprod. unfold Z.div_eucl at 1. fold (Z.div_eucl (Z.pos m2 * (Z.pos mq * 2 ^ n)) (Z.pos m2)).
  pose proof (Z_div_mod (Z.pos m2 * (Z.pos mq * 2 ^ n)) (Z.pos m2) ltac:(lia)) as Hdm.
  destruct (Z.div_eucl _ _) as [qq r]. destruct Hdm as [Hdm Hr].
  pose proof (pow2_pos n ltac:(unfold n; lia)).
  set (X := Z.pos mq * 2 ^ n) in *.
  assert (qq = X) as ->.
  { destruct (Z.lt_trichotomy qq X) as [Hlt|[?|Hlt]]; [exfalso|done|exfalso].
    - assert (Z.pos m2 * (qq + 1) <= Z.pos m2 * X) by (apply Z.mul_le_mono_nonneg_l; lia). lia.
    - assert (Z.pos m2 * (X + 1) <= Z.pos m2 * qq) by (apply Z.mul_le_mono_nonneg_l; lia). lia. }
  assert (r = 0) as -> by lia. unfold X.
  rewrite new_location_0.
  rewrite round_aux_exact; [f_equal; unfold n; lia|unfold n; lia| |unfold emax, prec, n; lia].
  rewrite Hdq, fexp_eq. unfold n, emin. lia.
Qed.

Lemma second_pos : 0 < second.
Proof. unfold second. apply pow2_pos. lia. Qed.

Lemma nonneg_zero x : nonneg x -> val x = 0 -> exists s, x = S754_zero s.
Proof.
  destruct x as [s| | |[] m e]; simpl; try done; [by eauto|].
  intros Hb Hv. pose proof (bounded_exp _ _ Hb). pose proof (units_pos m e ltac:(lia)). lia.
Qed.

(** [x % c] for a float [x] that is not negative and a positive integer
    [c]: the remainder, exactly. *)
Lemma float_rem_val x c :
  nonneg x -> 0 < c < 2 ^ 53 ->
  exists r, float_rem x (float_of_Z c) = Ok r /\ nonneg r
            /\ val r = val x `mod` (c * second).
Proof.
  intros Hx Hc. destruct (float_of_Z_exact c ltac:(lia)) as [Hnc Hvc].
  pose proof second_pos as Hs.
  destruct (fmod_val x (float_of_Z c) Hx Hnc ltac:(nia)) as [Hnm Hvm].
  unfold float_rem. rewrite (is_zero_val _ Hnc), bool_decide_eq_false_2 by nia.
  rewrite (is_zero_val _ Hnm), (is_neg_nonneg _ Hnc), (is_neg_nonneg _ Hnm).
  eexists. split; [done|]. rewrite <- Hvc, <- Hvm. case_bool_decide as Hz; simpl.
  - split; [done|]. unfold copysign0. simpl. lia.
  - done.
Qed.

(** [x // c] for a float [x] that is not negative, below [2^53], and a
    positive integer [c]: the quotient, exactly. *)
Lemma float_floor_div_val x c :
  nonneg x -> 0 < c < 2 ^ 53 -> val x < 2 ^ 53 * second ->
  exists h, float_floor_div x (float_of_Z c) = Ok h /\ nonneg h
            /\ val h = val x `div` (c * second) * second.
Proof.
  intros Hx Hc Hlt. destruct (float_of_Z_exact c ltac:(lia)) as [Hnc Hvc].
  pose proof second_pos as Hs. pose proof (nonneg_val x Hx) as Hx0.
  destruct (fmod_val x (float_of_Z c) Hx Hnc ltac:(nia)) as [Hnm Hvm].
  set (q := val x `div` (c * second)).
  assert (0 <= q) as Hq0 by (apply Z.div_pos; nia).
  assert (val x = c * second * q + val (fmod x (float_of_Z c))) as Hdiv.
  { rewrite Hvm, Hvc. apply Z.div_mod. nia. }
  pose proof (Z.mod_pos_bound (val x) (c * second) ltac:(nia)) as Hmb.
  rewrite <- Hvc, <- Hvm in Hmb.
  assert (c * q < 2 ^ 53) as Hcq by nia.
  destruct (fsub_val x (fmod x (float_of_Z c)) Hx Hnm ltac:(nia)) as [Hnt Hvt].
  { replace (val x - val (fmod x (float_of_Z c))) with (c * q * second) by lia.
    destruct (decide (q = 0)) as [->|]; [left; lia|].
    right. exists (c * q), 1074. split; [done|]. split; [nia|lia]. }
  unfold float_floor_div. rewrite (is_zero_val _ Hnc), bool_decide_eq_false_2 by nia.
  rewrite (is_neg_nonneg _ Hnc), (is_neg_nonneg _ Hnm). simpl negb at 2.
  rewrite andb_false_r.
  destruct (decide (q = 0)) as [Hq|Hq].
  - (* the quotient is zero *)
    destruct (nonneg_zero _ Hnt) as [s Ht]; [rewrite Hvt; nia|]. rewrite Ht.
    destruct (float_of_Z_form c Hc) as (mc & _ & _ & Hfc). rewrite Hfc.
    cbn [fdiv SFdiv is_zero SFeqb SFcompare fzero negb].
    eexists. split; [done|]. unfold copysign0. simpl. rewrite Hq. done.
  - (* the quotient is [q] *)
    assert (fsub x (fmod x (float_of_Z c)) = float_of_Z (c * q)) as ->.
    { destruct (float_of_Z_exact (c * q) ltac:(nia)) as [Hn' Hv'].
      apply nonneg_unique; [done..| |]; rewrite Hvt; [nia|]. rewrite Hv'. lia. }
    rewrite fdiv_multiple by lia.
    destruct (float_of_Z_exact q ltac:(nia)) as [Hnq Hvq].
    rewrite (is_zero_val _ Hnq), bool_decide_eq_false_2 by nia. simpl negb.
    destruct (ffloor_val _ Hnq) as [Hnf Hvf].
    assert (ffloor (float_of_Z q) = float_of_Z q) as ->.
    { apply nonneg_unique; [done..| |]; rewrite Hvf, Hvq, Z.div_mul by lia; nia. }
    exists (float_of_Z q). split; [|split; [done|by rewrite Hvq]].
    destruct (fsub_val (float_of_Z q) (float_of_Z q) Hnq Hnq ltac:(lia)) as [Hn0 Hv0].
    { left. lia. }
    destruct (nonneg_zero _ Hn0) as [s ->]; [lia|].
    by destruct s.
Qed.
Lemma shr_1_nonneg m r s :
  0 <= m ->
  shr_1 {| shr_m := m; shr_r := r; shr_s := s |}
  = {| shr_m := m `div` 2; shr_r := Z.odd m; shr_s := r || s |}.
Proof.
  intros Hm. destruct m as [|[p|p|]|p]; try lia; cbn [shr_1].
  - done.
  - f_equal. rewrite Pos2Z.inj_xI.
    apply (Z.div_unique _ _ _ 1); lia.
  - f_equal. rewrite Pos2Z.inj_xO.
    apply (Z.div_unique _ _ _ 0); lia.
  - done.
Qed.

(** Shifting right by [k] places: the quotient, the last bit that left,
    and whether a bit that left before it was set. *)
Lemma shr_nat (k : nat) (m : Z) :
  0 <= m ->
  Nat.iter (S k) shr_1 {| shr_m := m; shr_r := false; shr_s := false |}
  = {| shr_m := m `div` 2 ^ Z.of_nat (S k);
       shr_r := Z.odd (m `div` 2 ^ Z.of_nat k);
       shr_s := negb (m `mod` 2 ^ Z.of_nat k =? 0) |}.
Proof.
  intros Hm. induction k as [|k IH].
  - cbn [Nat.iter]. rewrite shr_1_nonneg by done. simpl Z.of_nat.
    rewrite Z.pow_0_r, Z.pow_1_r, Z.div_1_r, Z.mod_1_r. done.
  - rewrite Nat.iter_succ, IH.
    assert (0 < 2 ^ Z.of_nat k) as Hk by (apply Z.pow_pos_nonneg; lia).
    assert (0 < 2 ^ Z.of_nat (S k)) as Hk1 by (apply Z.pow_pos_nonneg; lia).
    rewrite shr_1_nonneg by (apply Z.div_pos; lia).
    f_equal.
    + rewrite Z.div_div by lia. f_equal.
      rewrite (Nat2Z.inj_succ (S k)), Z.pow_succ_r by lia. lia.
    + assert (2 ^ Z.of_nat (S k) = 2 ^ Z.of_nat k * 2) as E
        by (rewrite Nat2Z.inj_succ, Z.pow_succ_r by lia; lia).
      rewrite E. rewrite Z.rem_mul_r by lia.
      rewrite Zodd_mod.
      pose proof (Z.mod_pos_bound m (2 ^ Z.of_nat k) ltac:(lia)).
      pose proof (Z.mod_pos_bound (m `div` 2 ^ Z.of_nat k) 2 ltac:(lia)).
      destruct (Z.eqb_spec ((m `div` 2 ^ Z.of_nat k) `mod` 2) 1) as [E1|E1];
        destruct (Z.eqb_spec (m `mod` 2 ^ Z.of_nat k) 0) as [E2|E2];
        destruct (Z.eqb_spec (m `mod` 2 ^ Z.of_nat k
                              + 2 ^ Z.of_nat k * ((m `div` 2 ^ Z.of_nat k) `mod` 2)) 0)
          as [E3|E3]; simpl; try done; exfalso; nia.
Qed.

Lemma shr_nonpos mrs e n : n <= 0 -> shr mrs e n = (mrs, e).
Proof. destruct n; try lia; done. Qed.

Lemma shr_pos (m e n : Z) :
  0 <= m -> 1 <= n ->
  shr {| shr_m := m; shr_r := false; shr_s := false |} e n
  = ({| shr_m := m `div` 2 ^ n; shr_r := Z.odd (m `div` 2 ^ (n - 1));
        shr_s := negb (m `mod` 2 ^ (n - 1) =? 0) |}, e + n).
Proof.
  intros Hm Hn. destruct n as [|p|p]; try lia.
  unfold shr. rewrite iter_pos_nat. f_equal.
  destruct (Pos.to_nat p) as [|k] eqn:Ek; [lia|].
  rewrite shr_nat by lia.
  replace (Z.of_nat (S k)) with (Z.pos p) by lia.
  replace (Z.of_nat k) with (Z.pos p - 1) by lia. done.
Qed.

(** Rounding when bits must go: the mantissa that results is the
    quotient or its successor, and it is the quotient when what is dropped
    is less than half a unit of the last place.  The value is kept by the
    normalisation that follows. *)
Lemma round_aux_bracket (s : bool) (m : positive) (e n : Z) :
  1 <= n ->
  e + n = fexp prec emax (Z.pos (digits2_pos m) + e) ->
  e + n + 1 <= emax - prec ->
  exists M',
    Z.pos m `div` 2 ^ n <= M' <= Z.pos m `div` 2 ^ n + 1
    /\ (2 * (Z.pos m `mod` 2 ^ n) < 2 ^ n -> M' = Z.pos m `div` 2 ^ n)
    /\ match binary_round_aux prec emax s (Z.pos m) e loc_Exact with
       | S754_zero _ => M' = 0
       | S754_finite s' Mf ef =>
           s' = s /\ emin <= ef /\ units Mf ef = M' * 2 ^ (e + n - emin)
       | _ => False
       end.
Proof.
  intros Hn He Hmax. rewrite fexp_eq in He.
  pose proof (digits2_pos_bounds m) as [Hl Hh]. set (d := Z.pos (digits2_pos m)) in *.
  assert (0 < d) as Hd by (unfold d; lia).
  pose proof (pow2_pos n ltac:(lia)) as Hn2.
  set (q := Z.pos m `div` 2 ^ n).
  assert (0 <= q < 2 ^ 53) as Hq.
  { split; [apply Z.div_pos; lia|]. apply Z.div_lt_upper_bound; [lia|].
    rewrite <- Z.pow_add_r by lia.
    assert (2 ^ d <= 2 ^ (n + 53)) by (apply Z.pow_le_mono_r; lia). lia. }
  unfold binary_round_aux, shr_fexp. rewrite Zdigits2_pos. fold d.
  replace (fexp prec emax (d + e) - e) with n by (rewrite fexp_eq; lia).
  cbn [shr_record_of_loc].
  rewrite shr_pos by lia. fold q.
  cbn [shr_m].
  set (b := Z.odd (Z.pos m `div` 2 ^ (n - 1))).
  set (st := negb (Z.pos m `mod` 2 ^ (n - 1) =? 0)).
  set (M' := round_nearest_even q (loc_of_shr_record {| shr_m := q; shr_r := b; shr_s := st |})).
  assert (q <= M' <= q + 1) as HM.
  { unfold M'. destruct b, st; cbn; try destruct (Z.even q); lia. }
  assert (2 * (Z.pos m `mod` 2 ^ n) < 2 ^ n -> M' = q) as Hhalf.
  { intros Hlt. assert (b = false) as Hb.
    { unfold b. rewrite Zodd_mod. apply Z.eqb_neq. intros Hone.
      assert (2 ^ n = 2 ^ (n - 1) * 2) as E2.
      { replace n with (n - 1 + 1) at 1 by lia. rewrite Z.pow_add_r by lia. lia. }
      rewrite E2 in Hlt.
      rewrite Z.rem_mul_r in Hlt by (try apply Z.pow_nonzero; lia).
      rewrite Hone in Hlt.
      pose proof (pow2_pos (n - 1) ltac:(lia)).
      pose proof (Z.mod_pos_bound (Z.pos m) (2 ^ (n - 1)) ltac:(lia)). lia. }
    unfold M'. rewrite Hb. by destruct st. }
  exists M'. split; [done|]. split; [done|].
  clearbody M'. clear b st Hhalf.
  destruct (decide (M' = 2 ^ 53)) as [->|Hne].
  - (* a carry: one more place goes *)
    change (Zdigits2 (2 ^ 53)) with 54.
    replace (fexp prec emax (54 + (e + n)) - (e + n)) with 1 by (rewrite fexp_eq; lia).
    change (2 ^ 53) with (2 ^ 52 * 2 ^ 1) at 1.
    rewrite shr_exact by lia. cbn [shr_m].
    change (2 ^ 52) with (Z.pos (Z.to_pos (2 ^ 52))). cbv iota.
    destruct (Z.leb_spec (e + n + 1) (emax - prec)); [|lia].
    split; [done|]. split; [lia|]. unfold units.
    replace (e + n + 1 - emin) with (1 + (e + n - emin)) by lia.
    rewrite Z.pow_add_r by lia. 
    change (Z.pos (Z.to_pos (2 ^ 52)) * (2 ^ 1 * 2 ^ (e + n - emin)))
      with (2 ^ 52 * (2 ^ 1 * 2 ^ (e + n - emin))). lia.
  - rewrite shr_nonpos.
    2:{ rewrite fexp_eq. destruct M' as [|M|M]; try lia; cbn [Zdigits2].
        - lia.
        - pose proof (Zdigits2_le (Z.pos M) 53 ltac:(lia) ltac:(lia)) as HdM.
          cbn [Zdigits2] in HdM. lia. }
    cbn [shr_m]. destruct M' as [|M|M]; try lia.
    destruct (Z.leb_spec (e + n) (emax - prec)); [|lia].
    split; [done|]. split; [lia|]. done.
Qed.

Lemma trunc_units m e : emin <= e -> trunc_Z false m e = units m e `div` second.
Proof.
  intros He. unfold trunc_Z, units, second.
  destruct (Z.leb_spec 0 e).
  - replace (e - emin) with (e + 1074) by (unfold emin; lia).
    rewrite Z.pow_add_r, Z.mul_assoc by lia. rewrite Z.div_mul; [done|].
    pose proof (pow2_pos 1074 ltac:(lia)). lia.
  - replace (2 ^ 1074) with (2 ^ (- e) * 2 ^ (e - emin)).
    2:{ rewrite <- Z.pow_add_r by (unfold emin in *; lia). f_equal. unfold emin. lia. }
    rewrite Z.div_mul_cancel_r; [done| |]; apply Z.pow_nonzero; unfold emin in *; lia.
Qed.

Lemma float_1000 : float_of_Z 1000 = S754_finite false 8796093022208000 (-43).
Proof. vm_compute. reflexivity. Qed.

(** The milliseconds: the product of a fraction of a second by 1000,
    rounded to the format and cut to an integer, is the exact number of
    whole milliseconds or one more, and stays below 1000. *)
Lemma fmul_1000_val frac :
  nonneg frac -> val frac < second ->
  exists ms,
    int_of_float (fmul frac (float_of_Z 1000)) = Ok ms
    /\ (val frac * 1000) `div` second <= ms <= (val frac * 1000) `div` second + 1
    /\ 0 <= ms <= 999.
Proof.
  intros Hn Hlt. pose proof second_pos as Hs. rewrite float_1000.
  destruct frac as [sz| | |[] mf ef]; simpl in Hn; try done.
  { exists 0. simpl. split; [done|]. rewrite Z.div_0_l by lia. lia. }
  cbn [val] in Hlt.
  pose proof (bounded_exp _ _ Hn) as Hef. pose proof (bounded_inv _ _ Hn) as [Hcan _].
  pose proof (digits2_pos_bounds mf) as [Hlf Hhf]. set (df := Z.pos (digits2_pos mf)) in *.
  assert (0 < df) as Hdf by (unfold df; lia).
  pose proof (pow2_pos (ef - emin) ltac:(lia)) as Hpe.
  (* the fraction is below one: its exponent is negative *)
  assert (df + ef <= 0) as Hdfe.
  { destruct (Z.le_gt_cases (df + ef) 0); [done|]. unfold units, second in Hlt.
    assert (2 ^ 1074 <= 2 ^ (df - 1 + (ef - emin))) by (apply Z.pow_le_mono_r; unfold emin; lia).
    rewrite Z.pow_add_r in * by lia. nia. }
  unfold fmul. cbn [SFmul xorb]. rewrite Pos2Z.inj_mul.
  set (m1000 := 8796093022208000%positive).
  assert (2 ^ 52 <= Z.pos m1000 < 2 ^ 53) as Hm1000 by (unfold m1000; lia).
  destruct (Z.pos mf * Z.pos m1000) as [|m|m] eqn:Em; try lia.
  pose proof (digits2_pos_bounds m) as [Hl Hh]. set (d := Z.pos (digits2_pos m)) in *.
  rewrite <- Em in Hl, Hh.
  (* the digits of the product *)
  assert (df + 52 <= d <= df + 53) as Hd.
  { split.
    - destruct (Z.le_gt_cases (df + 52) d); [done|].
      assert (2 ^ d <= 2 ^ (df - 1 + 52)) by (apply Z.pow_le_mono_r; lia).
      rewrite Z.pow_add_r in * by lia. nia.
    - destruct (Z.le_gt_cases d (df + 53)); [done|].
      assert (2 ^ (df + 53) <= 2 ^ (d - 1)) by (apply Z.pow_le_mono_r; lia).
      rewrite Z.pow_add_r in * by lia. nia. }
  set (e := ef + -43). set (n := fexp prec emax (d + e) - e).
  assert (1 <= n) as Hn1.
  { unfold n, e. rewrite fexp_eq. unfold emin in *. lia. }
  assert (e + n <= -43) as Hen.
  { unfold n, e. rewrite fexp_eq. unfold emin in *. lia. }
  assert (emin <= e + n) as Hen'.
  { unfold n. rewrite fexp_eq. lia. }
  destruct (round_aux_bracket false m e n Hn1) as (M' & HM & Hhalf & Hres).
  { unfold n. fold d. lia. } { unfold emax, prec. lia. }
  rewrite <- Em in HM, Hhalf.
  (* the granule [g] of the result and the seconds in granules *)
  set (g := 2 ^ (e + n - emin)) in *. set (h := 2 ^ (- (e + n))).
  assert (0 < g) as Hg by (apply pow2_pos; lia).
  assert (0 < h) as Hh0 by (apply pow2_pos; lia).
  assert (second = h * g) as Hsec.
  { unfold h, g, second. rewrite <- Z.pow_add_r by lia. f_equal. unfold emin. lia. }
  assert (2 ^ 43 <= h) as Hh43 by (apply Z.pow_le_mono_r; lia).
  set (P := units mf ef * 1000).
  pose proof (pow2_pos n ltac:(lia)) as Hpn.
  assert ((Z.pos mf * Z.pos m1000) `div` 2 ^ n = P `div` g) as Hq.
  { assert (Z.pos mf * Z.pos m1000 * 2 ^ (ef - emin) = P * 2 ^ 43) as E1.
    { unfold P, units, m1000. lia. }
    assert (2 ^ n * 2 ^ (ef - emin) = g * 2 ^ 43) as E2.
    { unfold g. rewrite <- !Z.pow_add_r by lia. f_equal. unfold e. lia. }
    rewrite <- (Z.div_mul_cancel_r _ _ (2 ^ (ef - emin))) by lia.
    rewrite E1, E2. apply Z.div_mul_cancel_r; lia. }
  rewrite Hq in HM, Hhalf.
  set (K := P `div` second).
  assert (0 <= P) as HP0 by (unfold P, units; lia).
  assert (P < 1000 * second) as HP by (unfold P; lia).
  assert (0 <= K <= 999) as HK.
  { unfold K. split; [apply Z.div_pos; lia|].
    assert (P `div` second < 1000) by (apply Z.div_lt_upper_bound; lia). lia. }
  assert (K * second <= P < (K + 1) * second) as HKP.
  { unfold K. pose proof (Z.mul_div_le P second Hs).
    pose proof (Z.mul_succ_div_gt P second Hs). lia. }
  (* the quotient in granules *)
  assert (K * h <= P `div` g < (K + 1) * h) as Hqg.
  { split.
    - apply Z.div_le_lower_bound; [lia|]. nia.
    - apply Z.div_lt_upper_bound; [lia|]. nia. }
  assert (int_of_float (binary_round_aux prec emax false (Z.pos m) e loc_Exact)
          = Ok (M' `div` h)) as Hint.
  { destruct (binary_round_aux prec emax false (Z.pos m) e loc_Exact)
      as [s'| | |s' Mf ef']; try done.
    - subst M'. simpl. by rewrite Z.div_0_l by lia.
    - destruct Hres as (-> & Hef' & Hu). cbn [int_of_float]. f_equal.
      rewrite trunc_units by done. rewrite Hu, Hsec.
      rewrite Z.div_mul_cancel_r by lia. done. }
  exists (M' `div` h). split; [done|].
  assert (K <= M' `div` h <= K + 1) as Hms.
  { split.
    - apply Z.div_le_lower_bound; lia.
    - assert (M' <= (K + 1) * h) by lia.
      destruct (decide (M' = (K + 1) * h)) as [->|]; [rewrite Z.div_mul by lia; lia|].
      assert (M' `div` h < K + 1) by (apply Z.div_lt_upper_bound; lia). lia. }
  split; [done|]. split; [lia|].
  destruct (decide (K = 999)) as [HK9|]; [|lia].
  (* the last millisecond: the product does not round up to 1000 *)
  assert (M' < 1000 * h); [|assert (M' `div` h < 1000) by (apply Z.div_lt_upper_bound; lia); lia].
  assert (2 ^ 1073 <= units mf ef) as Hbig.
  { assert (999 * second <= P) by lia. unfold P in *.
    replace second with (2 * 2 ^ 1073) in * by (unfold second; rewrite <- Z.pow_succ_r by lia; done).
    lia. }
  pose proof (units_bounds mf ef ltac:(lia)) as [Hul Huh]. fold df in Hul, Huh.
  assert (df + ef = 0) as Hdf0.
  { destruct (Z.lt_trichotomy (df + ef) 0) as [Hc|[?|Hc]]; [|done|lia].
    assert (2 ^ (df + (ef - emin)) <= 2 ^ 1073) by (apply Z.pow_le_mono_r; unfold emin; lia).
    lia. }
  assert (ef = -53 /\ df = 53) as [Hef53 Hdf53] by (unfold emin in *; lia).
  assert (999 * 2 ^ 53 <= Z.pos mf * 1000) as Hmf.
  { assert (999 * second <= P) as HP9 by lia. unfold P, units, second in HP9.
    rewrite Hef53 in HP9. replace (-53 - emin) with 1021 in HP9 by (unfold emin; lia).
    replace (2 ^ 1074) with (2 ^ 53 * 2 ^ 1021) in HP9 by (rewrite <- Z.pow_add_r by lia; done).
    pose proof (pow2_pos 1021 ltac:(lia)). nia. }
  assert (d = 106) as Hd106.
  { destruct (Z.le_gt_cases 106 d); [lia|].
    assert (2 ^ d <= 2 ^ 105) by (apply Z.pow_le_mono_r; lia).
    assert (2 ^ 105 <= Z.pos mf * Z.pos m1000); [|lia].
    unfold m1000. change (2 ^ 105) with (512 * 2 ^ 53 * 2 ^ 43).
    change (Z.pos 8796093022208000) with (1000 * 2 ^ 43). lia. }
  assert (n = 53) as Hn53 by (unfold n, e; rewrite fexp_eq, Hd106, Hef53; unfold emin; lia).
  assert (h = 2 ^ 43) as Hh43' by (unfold h; rewrite Hn53; unfold e; rewrite Hef53; done).
  rewrite <- Hq, Hn53 in HM, Hhalf. rewrite Hh43'.
  assert (Z.pos mf < 2 ^ 53) as Hmf53.
  { assert (2 ^ df = 2 ^ 53) by (f_equal; lia). lia. }
  destruct (decide (Z.pos mf = 2 ^ 53 - 1)) as [Hlast|Hnot].
  - rewrite Hlast in HM, Hhalf. rewrite Hhalf; [by vm_compute|by vm_compute].
  - assert ((Z.pos mf * Z.pos m1000) `div` 2 ^ 53 <= ((2 ^ 53 - 2) * Z.pos m1000) `div` 2 ^ 53)
      as Hle by (apply Z.div_le_mono; [lia|nia]).
    assert (((2 ^ 53 - 2) * Z.pos m1000) `div` 2 ^ 53 = 1000 * 2 ^ 43 - 2) as E by (by vm_compute).
    lia.
Qed.

Lemma float_of_int_ok z : 0 <= z < 2 ^ 53 -> float_of_int z = Ok (float_of_Z z).
Proof.
  intros Hz. destruct (float_of_Z_exact z Hz) as [Hn _]. unfold float_of_int.
  by destruct (float_of_Z z) as [| | |[] ? ?].
Qed.

(** The fraction of a second of a float is a float. *)
Lemma representable_mod_second y : nonneg y -> representable (val y `mod` second).
Proof.
  destruct y as [| | |[] m e]; simpl; try done.
  { intros _. left. apply Z.mod_0_l. pose proof second_pos. lia. }
  intros Hb. pose proof (bounded_exp _ _ Hb) as He.
  pose proof (bounded_mantissa _ _ Hb) as Hm. unfold units, second.
  destruct (Z.le_gt_cases 1074 (e - emin)) as [Hge|Hlt].
  - left. replace (e - emin) with ((e - emin - 1074) + 1074) by lia.
    rewrite Z.pow_add_r, Z.mul_assoc by lia. apply Z.mod_mul.
    pose proof (pow2_pos 1074 ltac:(lia)). lia.
  - replace (2 ^ 1074) with (2 ^ (1074 - (e - emin)) * 2 ^ (e - emin))
      by (rewrite <- Z.pow_add_r by lia; f_equal; lia).
    pose proof (pow2_pos (1074 - (e - emin)) ltac:(lia)).
    pose proof (pow2_pos (e - emin) ltac:(lia)).
    rewrite Z.mul_mod_distr_r by lia.
    pose proof (Z.mod_pos_bound (Z.pos m) (2 ^ (1074 - (e - emin))) ltac:(lia)).
    pose proof (Z.mod_le (Z.pos m) (2 ^ (1074 - (e - emin))) ltac:(lia) ltac:(lia)).
    destruct (decide (Z.pos m `mod` 2 ^ (1074 - (e - emin)) = 0)) as [->|]; [by left|].
    right. eexists _, (e - emin). split; [done|]. unfold emin in *. lia.
Qed.

(** ** Sums of floats: rounding and order *)

Lemma rne_bracket q rem g : q <= rne q rem g <= q + 1.
Proof. unfold rne. repeat case_match; lia. Qed.

Lemma rne_exact q g : 0 < g -> rne q 0 g = q.
Proof. intros. unfold rne. destruct (Z.ltb_spec (2 * 0) g); [done|lia]. Qed.

Lemma rne_mono q rem1 rem2 g : rem1 <= rem2 -> rne q rem1 g <= rne q rem2 g.
Proof.
  intros H. unfold rne.
  destruct (Z.ltb_spec (2 * rem1) g), (Z.ltb_spec (2 * rem2) g),
    (Z.ltb_spec g (2 * rem1)), (Z.ltb_spec g (2 * rem2)), (Z.even q); lia.
Qed.

(** What [round_nearest_even] does with the bits that a shift dropped. *)
Lemma round_nearest_even_rne (m n : Z) :
  0 <= m -> 1 <= n ->
  round_nearest_even (m `div` 2 ^ n)
    (loc_of_shr_record {| shr_m := m `div` 2 ^ n;
                          shr_r := Z.odd (m `div` 2 ^ (n - 1));
                          shr_s := negb (m `mod` 2 ^ (n - 1) =? 0) |})
  = rne (m `div` 2 ^ n) (m `mod` 2 ^ n) (2 ^ n).
Proof.
  intros Hm Hn. pose proof (pow2_pos (n - 1) ltac:(lia)) as Hp.
  assert (2 ^ n = 2 ^ (n - 1) * 2) as E2.
  { replace n with (n - 1 + 1) at 1 by lia. rewrite Z.pow_add_r by lia. lia. }
  assert (m `mod` 2 ^ n = m `mod` 2 ^ (n - 1)
                          + 2 ^ (n - 1) * ((m `div` 2 ^ (n - 1)) `mod` 2)) as Erem.
  { rewrite E2. apply Z.rem_mul_r; lia. }
  rewrite Zodd_mod. unfold rne. rewrite Erem.
  pose proof (Z.mod_pos_bound m (2 ^ (n - 1)) ltac:(lia)) as Hlow.
  pose proof (Z.mod_pos_bound (m `div` 2 ^ (n - 1)) 2 ltac:(lia)) as Hbit.
  set (low := m `mod` 2 ^ (n - 1)) in *. set (bit := (m `div` 2 ^ (n - 1)) `mod` 2) in *.
  set (h := 2 ^ (n - 1)) in *. set (g := 2 ^ n) in *.
  destruct (Z.eqb_spec bit 1) as [Hb|Hb]; destruct (Z.eqb_spec low 0) as [Hl|Hl];
    cbn [negb loc_of_shr_record round_nearest_even];
    destruct (Z.ltb_spec (2 * (low + h * bit)) g);
    destruct (Z.ltb_spec g (2 * (low + h * bit)));
    try done; exfalso; nia.
Qed.

(** Rounding when bits must go, in full: the mantissa is rounded to
    nearest, ties to even, and the normalisation keeps the value. *)
Lemma round_aux_rne (s : bool) (m : positive) (e n : Z) :
  1 <= n ->
  e + n = fexp prec emax (Z.pos (digits2_pos m) + e) ->
  e + n + 1 <= emax - prec ->
  match binary_round_aux prec emax s (Z.pos m) e loc_Exact with
  | S754_zero _ => rne (Z.pos m `div` 2 ^ n) (Z.pos m `mod` 2 ^ n) (2 ^ n) = 0
  | S754_finite s' Mf ef =>
      s' = s /\ emin <= ef
      /\ units Mf ef
         = rne (Z.pos m `div` 2 ^ n) (Z.pos m `mod` 2 ^ n) (2 ^ n) * 2 ^ (e + n - emin)
  | _ => False
  end.
Proof.
  intros Hn He Hmax. rewrite fexp_eq in He.
  pose proof (digits2_pos_bounds m) as [Hl Hh]. set (d := Z.pos (digits2_pos m)) in *.
  assert (0 < d) as Hd by (unfold d; lia).
  pose proof (pow2_pos n ltac:(lia)) as Hn2.
  set (q := Z.pos m `div` 2 ^ n).
  assert (0 <= q < 2 ^ 53) as Hq.
  { split; [apply Z.div_pos; lia|]. apply Z.div_lt_upper_bound; [lia|].
    rewrite <- Z.pow_add_r by lia.
    assert (2 ^ d <= 2 ^ (n + 53)) by (apply Z.pow_le_mono_r; lia). lia. }
  pose proof (rne_bracket q (Z.pos m `mod` 2 ^ n) (2 ^ n)) as HM.
  unfold binary_round_aux, shr_fexp. rewrite Zdigits2_pos. fold d.
  replace (fexp prec emax (d + e) - e) with n by (rewrite fexp_eq; lia).
  cbn [shr_record_of_loc]. rewrite shr_pos by lia. cbn [shr_m].
  rewrite round_nearest_even_rne by lia. fold q.
  set (M' := rne q (Z.pos m `mod` 2 ^ n) (2 ^ n)) in *. clearbody M'.
  destruct (decide (M' = 2 ^ 53)) as [->|Hne].
  - change (Zdigits2 (2 ^ 53)) with 54.
    replace (fexp prec emax (54 + (e + n)) - (e + n)) with 1 by (rewrite fexp_eq; lia).
    change (2 ^ 53) with (2 ^ 52 * 2 ^ 1) at 1.
    rewrite shr_exact by lia. cbn [shr_m].
    change (2 ^ 52) with (Z.pos (Z.to_pos (2 ^ 52))). cbv iota.
    destruct (Z.leb_spec (e + n + 1) (emax - prec)); [|lia].
    split; [done|]. split; [lia|]. unfold units.
    replace (e + n + 1 - emin) with (1 + (e + n - emin)) by lia.
    rewrite Z.pow_add_r by lia.
    change (Z.pos (Z.to_pos (2 ^ 52)) * (2 ^ 1 * 2 ^ (e + n - emin)))
      with (2 ^ 52 * (2 ^ 1 * 2 ^ (e + n - emin))). lia.
  - rewrite shr_nonpos.
    2:{ rewrite fexp_eq. destruct M' as [|M|M]; try lia; cbn [Zdigits2].
        - lia.
        - pose proof (Zdigits2_le (Z.pos M) 53 ltac:(lia) ltac:(lia)) as HdM.
          cbn [Zdigits2] in HdM. lia. }
    cbn [shr_m]. destruct M' as [|M|M]; try lia.
    destruct (Z.leb_spec (e + n) (emax - prec)); [|lia].
    split; [done|]. split; [lia|]. done.
Qed.

Lemma Zdigits2_mono a b : 0 < a <= b -> Zdigits2 a <= Zdigits2 b.
Proof.
  intros [Ha Hab]. pose proof (Zdigits2_bounds a Ha) as [Hl _].
  pose proof (Zdigits2_bounds b ltac:(lia)) as [_ Hh].
  destruct (Z.le_gt_cases (Zdigits2 a) (Zdigits2 b)); [done|].
  assert (2 ^ Zdigits2 b <= 2 ^ (Zdigits2 a - 1)).
  { apply Z.pow_le_mono_r; [lia|]. assert (0 < Zdigits2 b) by (destruct b; simpl; lia). lia. }
  lia.
Qed.

Lemma Zdigits2_pos_gt z : 0 < z -> 0 < Zdigits2 z.
Proof. destruct z; simpl; lia. Qed.

(** Rounding is exact on what the format holds. *)
Lemma round_units_exact v : 0 <= v -> representable v -> round_units v = v.
Proof.
  intros Hv [->|(z & k & -> & Hz & Hk)]; [done|].
  unfold round_units. cbv zeta. pose proof (pow2_pos k ltac:(lia)).
  set (d := Zdigits2 (z * 2 ^ k)). set (j := Z.max (d - 53) 0).
  assert (j <= k) as Hj.
  { unfold j. destruct (Z.le_gt_cases (d - 53) k); [lia|].
    pose proof (Zdigits2_bounds (z * 2 ^ k) ltac:(nia)) as [Hl _]. fold d in Hl.
    assert (2 ^ (53 + k) <= 2 ^ (d - 1)) by (apply Z.pow_le_mono_r; lia).
    rewrite Z.pow_add_r in * by lia. nia. }
  pose proof (pow2_pos j ltac:(unfold j; lia)).
  assert (z * 2 ^ k = z * 2 ^ (k - j) * 2 ^ j) as E.
  { rewrite <- Z.mul_assoc, <- Z.pow_add_r by (unfold j; lia). do 2 f_equal. lia. }
  replace ((z * 2 ^ k) `div` 2 ^ j) with (z * 2 ^ (k - j))
    by (rewrite E; symmetry; apply Z.div_mul; lia).
  replace ((z * 2 ^ k) `mod` 2 ^ j) with 0
    by (rewrite E; symmetry; apply Z.mod_mul; lia).
  rewrite rne_exact by lia. lia.
Qed.

(** Rounding keeps the order. *)
Lemma round_units_mono v1 v2 : 0 < v1 <= v2 -> round_units v1 <= round_units v2.
Proof.
  intros [Hv1 Hle]. unfold round_units. cbv zeta.
  pose proof (Zdigits2_mono v1 v2 ltac:(lia)) as Hd.
  pose proof (Zdigits2_bounds v1 Hv1) as [Hl1 Hh1].
  pose proof (Zdigits2_bounds v2 ltac:(lia)) as [Hl2 Hh2].
  pose proof (Zdigits2_pos_gt v1 Hv1). pose proof (Zdigits2_pos_gt v2 ltac:(lia)).
  set (d1 := Zdigits2 v1) in *. set (d2 := Zdigits2 v2) in *.
  set (k1 := Z.max (d1 - 53) 0). set (k2 := Z.max (d2 - 53) 0).
  assert (0 <= k1 <= k2) as Hk by (unfold k1, k2; lia).
  pose proof (pow2_pos k1 ltac:(lia)) as Hg1. pose proof (pow2_pos k2 ltac:(lia)) as Hg2.
  pose proof (rne_bracket (v1 `div` 2 ^ k1) (v1 `mod` 2 ^ k1) (2 ^ k1)) as Hb1.
  pose proof (rne_bracket (v2 `div` 2 ^ k2) (v2 `mod` 2 ^ k2) (2 ^ k2)) as Hb2.
  destruct (decide (k1 = k2)) as [Ek|Nk].
  - rewrite <- Ek in *. set (g := 2 ^ k1) in *.
    pose proof (Z.div_mod v1 g ltac:(lia)) as E1. pose proof (Z.div_mod v2 g ltac:(lia)) as E2.
    pose proof (Z.mod_pos_bound v1 g ltac:(lia)). pose proof (Z.mod_pos_bound v2 g ltac:(lia)).
    assert (v1 `div` g <= v2 `div` g) as Hq by (apply Z.div_le_mono; lia).
    apply Z.mul_le_mono_nonneg_r; [lia|].
    destruct (decide (v1 `div` g = v2 `div` g)) as [Eq|Nq].
    + rewrite Eq in *. apply rne_mono. nia.
    + lia.
  - (* two binades: a power of two lies between *)
    assert (k2 = d2 - 53 /\ d1 < d2) as [Ek2 Hdd] by (unfold k1, k2 in *; lia).
    assert (rne (v1 `div` 2 ^ k1) (v1 `mod` 2 ^ k1) (2 ^ k1) * 2 ^ k1 <= 2 ^ d1) as Hup.
    { assert (v1 `div` 2 ^ k1 < 2 ^ (d1 - k1)).
      { apply Z.div_lt_upper_bound; [lia|]. rewrite <- Z.pow_add_r by (unfold k1; lia).
        replace (k1 + (d1 - k1)) with d1 by lia. lia. }
      replace (2 ^ d1) with (2 ^ (d1 - k1) * 2 ^ k1)
        by (rewrite <- Z.pow_add_r by (unfold k1; lia); f_equal; lia).
      apply Z.mul_le_mono_nonneg_r; lia. }
    assert (2 ^ (d2 - 1) <= rne (v2 `div` 2 ^ k2) (v2 `mod` 2 ^ k2) (2 ^ k2) * 2 ^ k2) as Hlo.
    { assert (2 ^ (d2 - 1 - k2) <= v2 `div` 2 ^ k2).
      { apply Z.div_le_lower_bound; [lia|]. rewrite <- Z.pow_add_r by lia.
        replace (k2 + (d2 - 1 - k2)) with (d2 - 1) by lia. lia. }
      replace (2 ^ (d2 - 1)) with (2 ^ (d2 - 1 - k2) * 2 ^ k2)
        by (rewrite <- Z.pow_add_r by lia; f_equal; lia).
      apply Z.mul_le_mono_nonneg_r; lia. }
    assert (2 ^ d1 <= 2 ^ (d2 - 1)) by (apply Z.pow_le_mono_r; lia). lia.
Qed.

Lemma rne_scale q rem g c : 0 < c -> rne q (rem * c) (g * c) = rne q rem g.
Proof.
  intros Hc. unfold rne.
  destruct (Z.ltb_spec (2 * (rem * c)) (g * c)), (Z.ltb_spec (2 * rem) g);
    destruct (Z.ltb_spec (g * c) (2 * (rem * c))), (Z.ltb_spec g (2 * rem));
    try done; exfalso; nia.
Qed.

Lemma round_units_nonneg v : 0 <= v -> 0 <= round_units v.
Proof.
  intros Hv. unfold round_units. cbv zeta.
  set (k := Z.max (Zdigits2 v - 53) 0). pose proof (pow2_pos k ltac:(unfold k; lia)).
  pose proof (rne_bracket (v `div` 2 ^ k) (v `mod` 2 ^ k) (2 ^ k)).
  assert (0 <= v `div` 2 ^ k) by (apply Z.div_pos; lia). nia.
Qed.

(** [binary_round] gives the float of the rounded number of units. *)
Lemma binary_round_units (m : positive) (e : Z) :
  emin <= e -> units m e < 2 ^ 2097 ->
  match binary_round prec emax false m e with
  | S754_finite false mf ef => emin <= ef /\ units mf ef = round_units (units m e)
  | _ => False
  end.
Proof.
  intros He Hlt.
  pose proof (units_bounds m e He) as [Hul Huh].
  pose proof (digits2_pos_bounds m) as [Hl Hh]. set (dm := Z.pos (digits2_pos m)) in *.
  assert (0 < dm) as Hdm by (unfold dm; lia).
  set (a := e - emin) in *. assert (0 <= a) as Ha by (unfold a; lia).
  assert (Zdigits2 (units m e) = dm + a) as Hd by (apply digits2_shift; lia).
  assert (dm + a <= 2097) as Hda.
  { destruct (Z.le_gt_cases (dm + a) 2097); [done|].
    assert (2 ^ 2097 <= 2 ^ (dm - 1 + a)) by (apply Z.pow_le_mono_r; lia). lia. }
  set (k := Z.max (dm + a - 53) 0).
  pose proof (pow2_pos a Ha) as Hpa.
  destruct (Z.le_gt_cases k a) as [Hka|Hka].
  - (* nothing is lost *)
    assert (representable (units m e)) as Hrep.
    { right. exists (Z.pos m * 2 ^ (a - k)), k. split; [|split].
      - unfold units. fold a. rewrite <- Z.mul_assoc, <- Z.pow_add_r by (unfold k; lia).
        do 2 f_equal. lia.
      - pose proof (pow2_pos (a - k) ltac:(lia)). split; [lia|].
        assert (2 ^ dm * 2 ^ (a - k) <= 2 ^ 53).
        { rewrite <- Z.pow_add_r by lia. apply Z.pow_le_mono_r; unfold k; lia. }
        nia.
      - unfold k. lia. }
    destruct Hrep as [H0|(z & j & Hzj & Hz & Hj)].
    { pose proof (units_pos m e He). lia. }
    destruct (binary_round_exact false m e z j He Hzj Hz Hj) as (m' & e' & -> & Hb & Hu).
    pose proof (bounded_exp _ _ Hb). split; [lia|]. rewrite Hu. symmetry.
    apply round_units_exact; [pose proof (units_pos m e He); lia|].
    right. by exists z, j.
  - (* bits are dropped *)
    set (n := k - a). assert (1 <= n) as Hn by (unfold n; lia).
    assert (k = dm + a - 53) as Ek by (unfold k in *; lia).
    assert (fexp prec emax (dm + e) = e + n) as Hfe.
    { rewrite fexp_eq. unfold n, a in *. lia. }
    unfold binary_round. fold dm. rewrite Hfe. unfold shl_align.
    destruct (e + n - e) as [|p|p] eqn:Ep; try lia. cbn [fst snd].
    pose proof (round_aux_rne false m e n Hn ltac:(fold dm; lia)
                  ltac:(unfold emax, prec, n, a, emin in *; lia)) as Hres.
    pose proof (pow2_pos n ltac:(lia)) as Hpn.
    assert (round_units (units m e)
            = rne (Z.pos m `div` 2 ^ n) (Z.pos m `mod` 2 ^ n) (2 ^ n) * 2 ^ (e + n - emin))
      as Hru.
    { unfold round_units. cbv zeta. rewrite Hd. fold k.
      assert (2 ^ k = 2 ^ n * 2 ^ a) as Ek2
        by (rewrite <- Z.pow_add_r by lia; f_equal; unfold n; lia).
      replace (e + n - emin) with k by (unfold n, a; lia).
      unfold units. fold a. rewrite Ek2.
      rewrite Z.div_mul_cancel_r by lia. rewrite Z.mul_mod_distr_r by lia.
      rewrite rne_scale by lia. done. }
    assert (1 <= Z.pos m `div` 2 ^ n) as Hq1.
    { apply Z.div_le_lower_bound; [lia|]. 
      assert (2 ^ n <= 2 ^ (dm - 1)) by (apply Z.pow_le_mono_r; unfold n; lia). lia. }
    pose proof (rne_bracket (Z.pos m `div` 2 ^ n) (Z.pos m `mod` 2 ^ n) (2 ^ n)).
    destruct (binary_round_aux prec emax false (Z.pos m) e loc_Exact)
      as [| | |s' mf ef]; try done; [lia|].
    destruct Hres as (-> & Hef & Hu). split; [done|]. by rewrite Hru.
Qed.

(** Adding floats that are not negative: the exact sum, rounded. *)
Lemma fadd_round x y :
  nonneg x -> nonneg y -> val x + val y < 2 ^ 2097 ->
  val (fadd x y) = round_units (val x + val y).
Proof.
  intros Hx Hy Hlt.
  assert (forall z, nonneg z -> val z = round_units (val z)) as Hself.
  { intros z Hz. symmetry. apply round_units_exact; [by apply nonneg_val|].
    destruct z as [| | |[] m e]; simpl in *; try done; try by left.
    by apply bounded_representable. }
  destruct x as [sx| | |[] mx ex]; simpl in Hx; try done;
    destruct y as [sy| | |[] my ey]; simpl in Hy; try done.
  - by destruct sx, sy.
  - cbn [fadd SFadd val]. rewrite Z.add_0_l. by apply (Hself (S754_finite false my ey)).
  - cbn [fadd SFadd val]. rewrite Z.add_0_r. by apply (Hself (S754_finite false mx ex)).
  - pose proof (bounded_exp _ _ Hx) as Hex. pose proof (bounded_exp _ _ Hy) as Hey.
    cbn [val] in *. unfold fadd. cbn [SFadd cond_Zopp].
    set (e := Z.min ex ey).
    assert (emin <= e <= ex /\ e <= ey) as (He & He') by (unfold e; lia).
    rewrite !shl_align_fst by lia.
    rewrite (units_rescale mx ex e), (units_rescale my ey e) in * by lia.
    pose proof (pow2_pos (e - emin) ltac:(lia)).
    pose proof (pow2_pos (ex - e) ltac:(lia)). pose proof (pow2_pos (ey - e) ltac:(lia)).
    rewrite <- Z.mul_add_distr_r in *.
    destruct (Z.pos mx * 2 ^ (ex - e) + Z.pos my * 2 ^ (ey - e)) as [|m|m] eqn:Em; try lia.
    cbn [binary_normalize].
    pose proof (binary_round_units m e ltac:(lia) Hlt) as Hres.
    destruct (binary_round prec emax false m e) as [| | |[] mf ef]; try done.
    destruct Hres as [_ Hu]. cbn [val]. rewrite Hu. done.
Qed.

(** Adding the same float to two floats keeps their order. *)
Lemma fadd_mono x1 x2 c :
  nonneg x1 -> nonneg x2 -> nonneg c -> val x1 <= val x2 -> val x2 + val c < 2 ^ 2097 ->
  val (fadd x1 c) <= val (fadd x2 c).
Proof.
  intros H1 H2 Hc Hle Hlt. pose proof (nonneg_val _ H1). pose proof (nonneg_val _ Hc).
  rewrite !fadd_round by (done || lia).
  destruct (decide (val x1 + val c = 0)) as [->|].
  - change (round_units 0) with 0. apply round_units_nonneg. lia.
  - apply round_units_mono. lia.
Qed.


Lemma add_rebased t off :
  0 <= off < 2 ^ 53 -> add (Float t) (Int off) = Ok (Float (rebased off t)).
Proof.
  intros Hoff. unfold add, arith. cbn [to_float bind].
  rewrite float_of_int_ok by lia. done.
Qed.

Lemma seconds_representable n : 0 <= n < 2 ^ 53 -> representable (n * second).
Proof.
  intros Hn. destruct (decide (n = 0)) as [->|]; [by left|].
  right. exists n, 1074. split; [done|]. lia.
Qed.

Lemma second_small : 2 ^ 53 * second < 2 ^ 2096.
Proof. by vm_compute. Qed.

(** A time within a clip of [len] seconds, rebased by [off] seconds, lies
    between [off] and [off + len] seconds. *)
Lemma rebased_bounds off len t :
  nonneg t -> 0 <= off -> 0 <= len -> off + len < 2 ^ 53 -> val t <= len * second ->
  off * second <= val (rebased off t) <= (off + len) * second.
Proof.
  intros Ht Hoff Hlen Hsum Hle. pose proof second_pos as Hs. pose proof second_small.
  pose proof (nonneg_val _ Ht) as Ht0.
  destruct (float_of_Z_exact off ltac:(lia)) as [Hno Hvo].
  unfold rebased. rewrite fadd_round by (done || nia). rewrite Hvo.
  split.
  - rewrite <- (round_units_exact (off * second)) at 1
      by (try apply seconds_representable; nia).
    destruct (decide (off * second = 0)) as [->|].
    + change (round_units 0) with 0. apply round_units_nonneg. lia.
    + apply round_units_mono. nia.
  - rewrite <- (round_units_exact ((off + len) * second))
      by (try apply seconds_representable; nia).
    destruct (decide (val t + off * second = 0)) as [->|].
    + change (round_units 0) with 0. apply round_units_nonneg. nia.
    + apply round_units_mono. nia.
Qed.

Lemma rebased_mono off t1 t2 :
  nonneg t1 -> nonneg t2 -> 0 <= off < 2 ^ 53 -> val t2 < 2 ^ 53 * second ->
  val t1 <= val t2 -> val (rebased off t1) <= val (rebased off t2).
Proof.
  intros H1 H2 Hoff Hlt Hle. pose proof second_pos. pose proof second_small.
  destruct (float_of_Z_exact off ltac:(lia)) as [Hno Hvo].
  apply fadd_mono; try done. rewrite Hvo. 
  assert (2 ^ 2097 = 2 * 2 ^ 2096) by (by vm_compute). nia.
Qed.

Lemma StronglySorted_app_bound {A} (R : relation A) (l1 l2 : list A) :
  StronglySorted R l1 -> StronglySorted R l2 ->
  (forall x y, x ∈ l1 -> y ∈ l2 -> R x y) -> StronglySorted R (l1 ++ l2).
Proof.
  intros H1 H2 H12. induction H1 as [|a l1 H1 IH Ha]; [done|].
  cbn [app]. constructor.
  - apply IH. intros x y Hx Hy. apply H12; [by right|done].
  - apply Forall_app. split; [done|]. apply Forall_forall. intros y Hy.
    apply H12; [by left|done].
Qed.

(** With a sane service the start times of a document are in ascending
    order: within a clip as the service gave them, and from one clip to the
    next because a clip's times stay within its own slice. *)
Lemma start_times_sorted split_size index tvs :
  0 < split_size -> 0 <= index ->
  (index + Z.of_nat (length tvs)) * (split_size * 60) < 2 ^ 53 ->
  Forall (well_timed split_size) tvs ->
  StronglySorted le_val (start_times split_size index tvs)
  /\ Forall (fun t => index * (split_size * 60) * second <= val t)
       (start_times split_size index tvs).
Proof.
  intros Hsz. revert index. induction tvs as [|tv tvs IH]; intros index Hi Hb Hall.
  { split; constructor. }
  apply Forall_cons in Hall as [[Hin Hsorted] Hall]. cbn [length] in Hb.
  destruct (IH (index + 1) ltac:(lia) ltac:(lia) Hall) as [IHs IHb].
  pose proof second_pos as Hs.
  set (len := split_size * 60) in *. set (off := index * split_size * 60).
  assert (off = index * len) as Eoff by (unfold off, len; lia).
  assert (0 <= off /\ off + len < 2 ^ 53) as [Hoff Hol] by nia.
  cbn [start_times]. fold off.
  assert (Forall (fun t => off * second <= val t <= (off + len) * second)
            (rebased off ∘ seg_start <$> default [] (tv_segments tv))) as Hclip.
  { apply Forall_fmap. eapply Forall_impl; [exact Hin|]. intros sg [Hn Hv]. cbn.
    apply rebased_bounds; try done; lia. }
  split.
  - apply StronglySorted_app_bound; [|done|].
    + rewrite Forall_forall in Hin.
      clear -Hsorted Hin Hoff Hol Hsz Hs. 
      induction Hsorted as [|sg segs Hs' IHs' Hsg]; [constructor|].
      cbn [fmap list_fmap]. constructor.
      * apply IHs'. intros x Hx. apply Hin. by right.
      * apply Forall_fmap. rewrite Forall_forall in Hsg |- *. intros sg' Hsg'. cbn.
        destruct (Hin sg ltac:(by left)) as [Hn1 Hv1].
        destruct (Hin sg' ltac:(by right)) as [Hn2 Hv2].
        apply rebased_mono; try done; [lia|nia|by apply Hsg].
    + intros x y Hx Hy. rewrite Forall_forall in Hclip, IHb.
      specialize (Hclip x Hx). specialize (IHb y Hy). unfold le_val. nia.
  - apply Forall_app. split.
    + eapply Forall_impl; [exact Hclip|]. intros t Ht. cbn in Ht. nia.
    + eapply Forall_impl; [exact IHb|]. intros t Ht. cbn in Ht. nia.
Qed.


Lemma bounded_intro m e :
  e = Z.max (Z.pos (digits2_pos m) + e - 53) emin -> e <= 971 ->
  bounded prec emax m e = true.
Proof.
  intros H1 H2. unfold bounded, canonical_mantissa. apply andb_true_iff. split.
  - apply Z.eqb_eq. rewrite fexp_eq. lia.
  - apply Z.leb_le. unfold emax, prec. lia.
Qed.

(** Rounding when bits must go gives a float in canonical form. *)
Lemma round_aux_bounded (s : bool) (m : positive) (e n : Z) :
  1 <= n ->
  e + n = fexp prec emax (Z.pos (digits2_pos m) + e) ->
  e + n + 1 <= emax - prec ->
  match binary_round_aux prec emax s (Z.pos m) e loc_Exact with
  | S754_finite _ Mf ef => bounded prec emax Mf ef = true
  | _ => True
  end.
Proof.
  intros Hn He Hmax. rewrite fexp_eq in He.
  pose proof (digits2_pos_bounds m) as [Hl Hh]. set (d := Z.pos (digits2_pos m)) in *.
  assert (0 < d) as Hd by (unfold d; lia).
  pose proof (pow2_pos n ltac:(lia)) as Hn2.
  set (q := Z.pos m `div` 2 ^ n).
  assert (0 <= q < 2 ^ 53) as Hq.
  { split; [apply Z.div_pos; lia|]. apply Z.div_lt_upper_bound; [lia|].
    rewrite <- Z.pow_add_r by lia.
    assert (2 ^ d <= 2 ^ (n + 53)) by (apply Z.pow_le_mono_r; lia). lia. }
  assert (e + n = emin \/ 2 ^ 52 <= q) as Hnorm.
  { destruct (decide (e + n = emin)) as [|Hne]; [by left|right].
    assert (n = d - 53) as -> by lia.
    apply Z.div_le_lower_bound; [lia|]. rewrite <- Z.pow_add_r by lia.
    replace (d - 53 + 52) with (d - 1) by lia. lia. }
  pose proof (rne_bracket q (Z.pos m `mod` 2 ^ n) (2 ^ n)) as HM.
  unfold binary_round_aux, shr_fexp. rewrite Zdigits2_pos. fold d.
  replace (fexp prec emax (d + e) - e) with n by (rewrite fexp_eq; lia).
  cbn [shr_record_of_loc]. rewrite shr_pos by lia. cbn [shr_m].
  rewrite round_nearest_even_rne by lia. fold q.
  set (M' := rne q (Z.pos m `mod` 2 ^ n) (2 ^ n)) in *. clearbody M'.
  destruct (decide (M' = 2 ^ 53)) as [->|Hne].
  - change (Zdigits2 (2 ^ 53)) with 54.
    replace (fexp prec emax (54 + (e + n)) - (e + n)) with 1 by (rewrite fexp_eq; lia).
    change (2 ^ 53) with (2 ^ 52 * 2 ^ 1) at 1.
    rewrite shr_exact by lia. cbn [shr_m].
    change (2 ^ 52) with (Z.pos (Z.to_pos (2 ^ 52))). cbv iota.
    destruct (Z.leb_spec (e + n + 1) (emax - prec)); [|lia].
    apply bounded_intro; [|unfold emax, prec in *; lia].
    change (Z.pos (digits2_pos (Z.to_pos (2 ^ 52)))) with 53. unfold emin in *. lia.
  - assert (Zdigits2 M' <= 53) as HdM.
    { destruct M' as [|M|M]; try lia; cbn [Zdigits2]; [lia|].
      pose proof (Zdigits2_le (Z.pos M) 53 ltac:(lia) ltac:(lia)) as HdM.
      apply HdM. }
    rewrite shr_nonpos by (rewrite fexp_eq; lia).
    cbn [shr_m]. destruct M' as [|M|M]; try lia.
    destruct (Z.leb_spec (e + n) (emax - prec)); [|done].
    apply bounded_intro; [|unfold emax, prec in *; lia].
    cbn [Zdigits2] in HdM.
    destruct Hnorm as [Hmin|Hbig]; [lia|].
    pose proof (digits2_pos_bounds M) as [HlM HhM].
    assert (53 <= Z.pos (digits2_pos M)).
    { destruct (Z.le_gt_cases 53 (Z.pos (digits2_pos M))); [done|].
      assert (2 ^ Z.pos (digits2_pos M) <= 2 ^ 52) by (apply Z.pow_le_mono_r; lia). lia. }
    unfold emin in *. lia.
Qed.

(** [binary_round] gives a float in canonical form. *)
Lemma binary_round_bounded (m : positive) (e : Z) :
  emin <= e -> units m e < 2 ^ 2097 ->
  match binary_round prec emax false m e with
  | S754_finite _ mf ef => bounded prec emax mf ef = true
  | _ => True
  end.
Proof.
  intros He Hlt.
  pose proof (units_bounds m e He) as [Hul Huh].
  pose proof (digits2_pos_bounds m) as [Hl Hh]. set (dm := Z.pos (digits2_pos m)) in *.
  assert (0 < dm) as Hdm by (unfold dm; lia).
  set (a := e - emin) in *. assert (0 <= a) as Ha by (unfold a; lia).
  assert (Zdigits2 (units m e) = dm + a) as Hd by (apply digits2_shift; lia).
  assert (dm + a <= 2097) as Hda.
  { destruct (Z.le_gt_cases (dm + a) 2097); [done|].
    assert (2 ^ 2097 <= 2 ^ (dm - 1 + a)) by (apply Z.pow_le_mono_r; lia). lia. }
  set (k := Z.max (dm + a - 53) 0).
  pose proof (pow2_pos a Ha) as Hpa.
  destruct (Z.le_gt_cases k a) as [Hka|Hka].
  - assert (exists z j, units m e = z * 2 ^ j /\ 0 < z < 2 ^ 53 /\ 0 <= j <= 2045)
      as (z & j & Hzj & Hz & Hj).
    { exists (Z.pos m * 2 ^ (a - k)), k. split; [|split].
      - unfold units. fold a. rewrite <- Z.mul_assoc, <- Z.pow_add_r by (unfold k; lia).
        do 2 f_equal. lia.
      - pose proof (pow2_pos (a - k) ltac:(lia)). split; [lia|].
        assert (2 ^ dm * 2 ^ (a - k) <= 2 ^ 53).
        { rewrite <- Z.pow_add_r by lia. apply Z.pow_le_mono_r; unfold k; lia. }
        nia.
      - unfold k. lia. }
    by destruct (binary_round_exact false m e z j He Hzj Hz Hj) as (m' & e' & -> & Hb & Hu).
  - set (n := k - a). assert (1 <= n) as Hn by (unfold n; lia).
    assert (k = dm + a - 53) as Ek by (unfold k in *; lia).
    assert (fexp prec emax (dm + e) = e + n) as Hfe.
    { rewrite fexp_eq. unfold n, a in *. lia. }
    unfold binary_round. fold dm. rewrite Hfe. unfold shl_align.
    destruct (e + n - e) as [|p|p] eqn:Ep; try lia. cbn [fst snd].
    apply (round_aux_bounded false m e n Hn); [fold dm; lia|].
    unfold emax, prec, n, a, emin in *. lia.
Qed.

(** The sum of two floats that are not negative is one, short of
    overflow. *)
Lemma fadd_nonneg x y :
  nonneg x -> nonneg y -> val x + val y < 2 ^ 2097 -> nonneg (fadd x y).
Proof.
  intros Hx Hy Hlt.
  destruct x as [sx| | |[] mx ex]; simpl in Hx; try done;
    destruct y as [sy| | |[] my ey]; simpl in Hy; try done.
  - by destruct sx, sy.
  - pose proof (bounded_exp _ _ Hx) as Hex. pose proof (bounded_exp _ _ Hy) as Hey.
    cbn [val] in *. unfold fadd. cbn [SFadd cond_Zopp].
    set (e := Z.min ex ey).
    assert (emin <= e <= ex /\ e <= ey) as (He & He') by (unfold e; lia).
    rewrite !shl_align_fst by lia.
    rewrite (units_rescale mx ex e), (units_rescale my ey e) in * by lia.
    pose proof (pow2_pos (e - emin) ltac:(lia)).
    pose proof (pow2_pos (ex - e) ltac:(lia)). pose proof (pow2_pos (ey - e) ltac:(lia)).
    rewrite <- Z.mul_add_distr_r in *.
    destruct (Z.pos mx * 2 ^ (ex - e) + Z.pos my * 2 ^ (ey - e)) as [|m|m] eqn:Em; try lia.
    cbn [binary_normalize].
    pose proof (binary_round_units m e ltac:(lia) Hlt) as Hres.
    pose proof (binary_round_bounded m e ltac:(lia) Hlt) as Hb.
    by destruct (binary_round prec emax false m e) as [| | |[] mf ef].
Qed.

(** The product of a fraction of a second by 1000 is the exact product,
    rounded to the format. *)
Lemma fmul_1000_round frac :
  nonneg frac -> val frac < second ->
  nonneg (fmul frac (float_of_Z 1000))
  /\ val (fmul frac (float_of_Z 1000)) = round_units (val frac * 1000).
Proof.
  intros Hn Hlt. pose proof second_pos as Hs. rewrite float_1000.
  destruct frac as [sz| | |[] mf ef]; simpl in Hn; try done.
  cbn [val] in Hlt.
  pose proof (bounded_exp _ _ Hn) as Hef. pose proof (bounded_inv _ _ Hn) as [Hcan _].
  pose proof (digits2_pos_bounds mf) as [Hlf Hhf]. set (df := Z.pos (digits2_pos mf)) in *.
  assert (0 < df) as Hdf by (unfold df; lia).
  pose proof (pow2_pos (ef - emin) ltac:(lia)) as Hpe.
  assert (df + ef <= 0) as Hdfe.
  { destruct (Z.le_gt_cases (df + ef) 0); [done|]. unfold units, second in Hlt.
    assert (2 ^ 1074 <= 2 ^ (df - 1 + (ef - emin))) by (apply Z.pow_le_mono_r; unfold emin; lia).
    rewrite Z.pow_add_r in * by lia. nia. }
  unfold fmul. cbn [SFmul xorb val]. rewrite Pos2Z.inj_mul.
  set (m1000 := 8796093022208000%positive).
  assert (Z.pos m1000 = 1000 * 2 ^ 43) as Em1000 by (by vm_compute).
  pose proof (pow2_pos 43 ltac:(lia)) as Hp43.
  (* the product in whole units: [p * 2^(ef - emin)] *)
  destruct (Z.pos mf * 1000) as [|p|p] eqn:Ep; try lia.
  assert (units mf ef * 1000 = Z.pos p * 2 ^ (ef - emin)) as EP by (unfold units; lia).
  assert (Z.pos mf * Z.pos m1000 = Z.pos p * 2 ^ 43) as EM by lia.
  destruct (Z.pos mf * Z.pos m1000) as [|m|m] eqn:Em; try lia.
  set (dp := Z.pos (digits2_pos p)).
  assert (Z.pos (digits2_pos m) = dp + 43) as Hd.
  { pose proof (digits2_shift p 43 ltac:(lia)) as H. rewrite <- EM in H. exact H. }
  assert (Zdigits2 (units mf ef * 1000) = dp + (ef - emin)) as HdP.
  { rewrite EP. apply digits2_shift. lia. }
  assert (df + 9 <= dp) as Hdp.
  { pose proof (digits2_pos_bounds p) as [_ Hhp]. fold dp in Hhp.
    destruct (Z.le_gt_cases (df + 9) dp); [done|].
    assert (2 ^ dp <= 2 ^ (df - 1 + 9)) by (apply Z.pow_le_mono_r; lia).
    rewrite Z.pow_add_r in * by lia. nia. }
  assert (dp <= df + 10) as Hdp'.
  { pose proof (digits2_pos_bounds p) as [Hlp _]. fold dp in Hlp.
    destruct (Z.le_gt_cases dp (df + 10)); [done|].
    assert (2 ^ (df + 10) <= 2 ^ (dp - 1)) by (apply Z.pow_le_mono_r; lia).
    rewrite Z.pow_add_r in * by lia. nia. }
  set (e := ef + -43). set (n := fexp prec emax (Z.pos (digits2_pos m) + e) - e).
  assert (n = Z.max (dp - 53) (emin - ef) + 43) as En.
  { unfold n, e. rewrite fexp_eq, Hd. lia. }
  assert (43 <= n) as Hn1 by lia.
  set (k := Z.max (dp + (ef - emin) - 53) 0).
  assert (e + n - emin = k) as Ek by (unfold k, e; lia).
  assert (0 <= k) as Hk by (unfold k; lia).
  pose proof (round_aux_rne false m e n ltac:(lia) ltac:(unfold n; lia)
                ltac:(unfold emax, prec, emin in *; lia)) as Hres.
  pose proof (round_aux_bounded false m e n ltac:(lia) ltac:(unfold n; lia)
                ltac:(unfold emax, prec, emin in *; lia)) as Hb.
  (* the two roundings agree *)
  pose proof (pow2_pos n ltac:(lia)) as Hpn. pose proof (pow2_pos k Hk) as Hpk.
  pose proof (pow2_pos (n - 43) ltac:(lia)) as Hpn'.
  assert (2 ^ n = 2 ^ (n - 43) * 2 ^ 43) as E2n
    by (rewrite <- Z.pow_add_r by lia; f_equal; lia).
  assert (2 ^ k = 2 ^ (n - 43) * 2 ^ (ef - emin)) as E2k
    by (rewrite <- Z.pow_add_r by lia; f_equal; unfold e in *; lia).
  assert (rne (Z.pos m `div` 2 ^ n) (Z.pos m `mod` 2 ^ n) (2 ^ n) * 2 ^ (e + n - emin)
          = round_units (units mf ef * 1000)) as Hru.
  { unfold round_units. cbv zeta. rewrite HdP. fold k. rewrite Ek. f_equal.
    rewrite EM, EP, E2n, E2k.
    rewrite !Z.div_mul_cancel_r, !Z.mul_mod_distr_r by lia.
    by rewrite !rne_scale by lia. }
  rewrite Hru in Hres.
  destruct (binary_round_aux prec emax false (Z.pos m) e loc_Exact)
    as [s'| | |s' Mf ef']; try done.
  - split; [done|]. rewrite <- Hru, Hres. done.
  - destruct Hres as (-> & _ & Hu). split; [done|]. done.
Qed.

(** ** How a time is printed *)

Lemma fields_bounds v :
  0 <= v ->
  0 <= hours_of v /\ 0 <= minutes_of v <= 59 /\ 0 <= seconds_of v <= 59
  /\ 0 <= fraction_of v < second
  /\ v = ((hours_of v * 60 + minutes_of v) * 60 + seconds_of v) * second + fraction_of v.
Proof.
  intros Hv. pose proof second_pos as Hs.
  unfold hours_of, minutes_of, seconds_of, fraction_of.
  pose proof (Z.mod_pos_bound v (3600 * second) ltac:(lia)) as H1.
  pose proof (Z.mod_pos_bound v (60 * second) ltac:(lia)) as H2.
  pose proof (Z.mod_pos_bound v second ltac:(lia)) as H3.
  pose proof (Z.div_mod v (3600 * second) ltac:(lia)) as E1.
  pose proof (Z.div_mod (v `mod` (3600 * second)) (60 * second) ltac:(lia)) as E2.
  pose proof (Z.div_mod (v `mod` (60 * second)) second ltac:(lia)) as E3.
  assert ((v `mod` (3600 * second)) `mod` (60 * second) = v `mod` (60 * second)) as E4.
  { apply Z.mod_mod_divide. exists 60. lia. }
  assert ((v `mod` (60 * second)) `mod` second = v `mod` second) as E5.
  { apply Z.mod_mod_divide. exists 60. lia. }
  rewrite E4 in E2. rewrite E5 in E3.
  assert (0 <= v `div` (3600 * second)) by (apply Z.div_pos; lia).
  assert (0 <= (v `mod` (3600 * second)) `div` (60 * second) < 60).
  { split; [apply Z.div_pos; lia|]. apply Z.div_lt_upper_bound; lia. }
  assert (0 <= (v `mod` (60 * second)) `div` second < 60).
  { split; [apply Z.div_pos; lia|]. apply Z.div_lt_upper_bound; lia. }
  repeat split; try lia.
Qed.

(** [seconds_to_vtt_time] on a float that is not negative and below
    [2^53] seconds. *)
Lemma seconds_to_vtt_time_float x :
  nonneg x -> val x < 2 ^ 53 * second ->
  exists ms,
    seconds_to_vtt_time (Float x)
    = Ok (vtt_time (hours_of (val x)) (minutes_of (val x)) (seconds_of (val x)) ms)
    /\ (fraction_of (val x) * 1000) `div` second <= ms
       <= (fraction_of (val x) * 1000) `div` second + 1
    /\ 0 <= ms <= 999.
Proof.
  intros Hx Hlt. pose proof second_pos as Hs. pose proof (nonneg_val x Hx) as Hx0.
  pose proof (fields_bounds (val x) Hx0) as (Hh & Hm & Hsec & Hfr & _).
  unfold hours_of, minutes_of, seconds_of, fraction_of in *.
  destruct (float_floor_div_val x 3600 Hx ltac:(lia) Hlt) as (h & Eh & Hnh & Hvh).
  destruct (float_rem_val x 3600 Hx ltac:(lia)) as (r & Er & Hnr & Hvr).
  pose proof (Z.mod_pos_bound (val x) (3600 * second) ltac:(lia)) as Hr.
  destruct (float_floor_div_val r 60 Hnr ltac:(lia) ltac:(lia)) as (m & Em & Hnm & Hvm).
  destruct (float_rem_val x 60 Hx ltac:(lia)) as (sec & Es & Hns & Hvs).
  pose proof (Z.mod_pos_bound (val x) (60 * second) ltac:(lia)) as Hsb.
  set (whole := val sec `div` second).
  assert (whole = (val x `mod` (60 * second)) `div` second) as Hw by (unfold whole; by rewrite Hvs).
  destruct (float_of_Z_exact whole ltac:(lia)) as [Hnw Hvw].
  assert (val sec `mod` second = val x `mod` second) as Hfrac.
  { rewrite Hvs. apply Z.mod_mod_divide. exists 60. lia. }
  assert (val sec - val (float_of_Z whole) = val sec `mod` second) as Hdiff.
  { rewrite Hvw. unfold whole. pose proof (Z.div_mod (val sec) second ltac:(lia)). lia. }
  pose proof (Z.mod_pos_bound (val sec) second ltac:(lia)) as Hfb.
  destruct (fsub_val sec (float_of_Z whole) Hns Hnw ltac:(lia)) as [Hnf Hvf].
  { rewrite Hdiff. by apply representable_mod_second. }
  destruct (fmul_1000_val _ Hnf ltac:(lia)) as (ms & Ems & Hms & Hms').
  exists ms. rewrite Hvf, Hdiff, Hfrac in Hms. split; [|done].
  unfold seconds_to_vtt_time, floordiv, mod_, sub, mul, arith.
  cbn [to_float bind int].
  rewrite !float_of_int_ok by lia. cbn [bind int].
  rewrite Eh. cbn [bind int]. rewrite (int_of_float_val _ Hnh). cbn [bind int].
  rewrite Er. cbn [bind int to_float]. rewrite Em. cbn [bind int].
  rewrite (int_of_float_val _ Hnm). cbn [bind int].
  rewrite Es. cbn [bind int]. rewrite (int_of_float_val _ Hns). cbn [bind int to_float].
  fold whole. rewrite !float_of_int_ok by lia. cbn [bind int to_float].
  rewrite ?float_of_int_ok by lia. cbn [bind int]. rewrite Ems. cbn [bind].
  unfold vtt_time. rewrite Hvh, Hvm, Hvr, Hw, !Z.div_mul by lia. done.
Qed.

(** [seconds_to_vtt_time] on a float that is not negative and below
    [2^53] seconds, with the milliseconds it prints. *)
Lemma seconds_to_vtt_time_float_ms x :
  nonneg x -> val x < 2 ^ 53 * second ->
  seconds_to_vtt_time (Float x)
  = Ok (vtt_time (hours_of (val x)) (minutes_of (val x)) (seconds_of (val x))
          (milliseconds_of (val x)))
  /\ (fraction_of (val x) * 1000) `div` second <= milliseconds_of (val x)
     <= (fraction_of (val x) * 1000) `div` second + 1
  /\ 0 <= milliseconds_of (val x) <= 999.
Proof.
  intros Hx Hlt. pose proof second_pos as Hs. pose proof (nonneg_val x Hx) as Hx0.
  pose proof (fields_bounds (val x) Hx0) as (Hh & Hm & Hsec & Hfr & _).
  unfold milliseconds_of, hours_of, minutes_of, seconds_of, fraction_of in *.
  destruct (float_floor_div_val x 3600 Hx ltac:(lia) Hlt) as (h & Eh & Hnh & Hvh).
  destruct (float_rem_val x 3600 Hx ltac:(lia)) as (r & Er & Hnr & Hvr).
  pose proof (Z.mod_pos_bound (val x) (3600 * second) ltac:(lia)) as Hr.
  destruct (float_floor_div_val r 60 Hnr ltac:(lia) ltac:(lia)) as (m & Em & Hnm & Hvm).
  destruct (float_rem_val x 60 Hx ltac:(lia)) as (sec & Es & Hns & Hvs).
  pose proof (Z.mod_pos_bound (val x) (60 * second) ltac:(lia)) as Hsb.
  set (whole := val sec `div` second).
  assert (whole = (val x `mod` (60 * second)) `div` second) as Hw by (unfold whole; by rewrite Hvs).
  destruct (float_of_Z_exact whole ltac:(lia)) as [Hnw Hvw].
  assert (val sec `mod` second = val x `mod` second) as Hfrac.
  { rewrite Hvs. apply Z.mod_mod_divide. exists 60. lia. }
  assert (val sec - val (float_of_Z whole) = val sec `mod` second) as Hdiff.
  { rewrite Hvw. unfold whole. pose proof (Z.div_mod (val sec) second ltac:(lia)). lia. }
  pose proof (Z.mod_pos_bound (val sec) second ltac:(lia)) as Hfb.
  destruct (fsub_val sec (float_of_Z whole) Hns Hnw ltac:(lia)) as [Hnf Hvf].
  { rewrite Hdiff. by apply representable_mod_second. }
  destruct (fmul_1000_round _ Hnf ltac:(lia)) as [Hnp Hvp].
  destruct (fmul_1000_val _ Hnf ltac:(lia)) as (ms & Ems0 & Hms & Hms').
  pose proof (int_of_float_val _ Hnp) as Ems.
  rewrite Hvp, Hvf, Hdiff, Hfrac in Ems. rewrite Hvf, Hdiff, Hfrac in Hms.
  assert (ms = round_units (val x `mod` second * 1000) `div` second) as ->
    by congruence.
  split; [|done].
  unfold seconds_to_vtt_time, floordiv, mod_, sub, mul, arith.
  cbn [to_float bind int].
  rewrite !float_of_int_ok by lia. cbn [bind int].
  rewrite Eh. cbn [bind int]. rewrite (int_of_float_val _ Hnh). cbn [bind int].
  rewrite Er. cbn [bind int to_float]. rewrite Em. cbn [bind int].
  rewrite (int_of_float_val _ Hnm). cbn [bind int].
  rewrite Es. cbn [bind int]. rewrite (int_of_float_val _ Hns). cbn [bind int to_float].
  fold whole. rewrite !float_of_int_ok by lia. cbn [bind int to_float].
  rewrite ?float_of_int_ok by lia. cbn [bind int]. rewrite Ems0. cbn [bind].
  unfold vtt_time. rewrite Hvh, Hvm, Hvr, Hw, !Z.div_mul by lia. done.
Qed.

(** Where the product of the fraction by 1000 needs no rounding, the
    milliseconds are the fraction cut to milliseconds. *)
Lemma milliseconds_of_exact v :
  0 <= v -> representable (fraction_of v * 1000) ->
  milliseconds_of v = (fraction_of v * 1000) `div` second.
Proof.
  intros Hv Hr. unfold milliseconds_of. rewrite round_units_exact; [done| |done].
  unfold fraction_of. pose proof second_pos.
  pose proof (Z.mod_pos_bound v second ltac:(lia)). lia.
Qed.

(** *** The fields as they are printed *)

Lemma length_app_str (a b : string) :
  String.length (a +:+ b) = (String.length a + String.length b)%nat.
Proof. induction a as [|x a IH]; [done|]. rewrite app_str_cons. simpl. by rewrite IH. Qed.

Lemma length_zeros n : String.length (zeros n) = n.
Proof.
  induction n as [|n IH]; [done|]. cbn [zeros]. rewrite length_app_str, IH. done.
Qed.

(** A field that is not negative is its digits, with zeros before them up
    to the width. *)
Lemma format_0_nonneg w n :
  0 <= n ->
  format_0 w n = zeros (w - String.length (pretty n)) +:+ pretty n
  /\ String.length (format_0 w n) = Nat.max w (String.length (pretty n)).
Proof.
  intros Hn. unfold format_0. destruct (Z.ltb_spec n 0); [lia|].
  rewrite Z.abs_eq by lia. cbn [String.length]. rewrite Nat.sub_0_r.
  split; [done|]. change ("" +:+ ?s) with s.
  rewrite length_app_str, length_zeros. lia.
Qed.

Lemma pretty_length_le (k bound : nat) (n : Z) :
  digits_at_most k bound = true -> 0 <= n < Z.of_nat bound ->
  (String.length (pretty n) <= k)%nat.
Proof.
  intros Hall Hn. unfold digits_at_most in Hall. rewrite forallb_forall in Hall.
  specialize (Hall (Z.to_nat n)). rewrite Z2Nat.id in Hall by lia.
  apply Nat.leb_le, Hall, in_seq. lia.
Qed.

Lemma format_0_2_length n : 0 <= n <= 99 -> String.length (format_0 2 n) = 2%nat.
Proof.
  intros Hn. destruct (format_0_nonneg 2 n ltac:(lia)) as [_ ->].
  assert (String.length (pretty n) <= 2)%nat; [|lia].
  apply (pretty_length_le 2 100); [by vm_compute|lia].
Qed.

Lemma format_0_3_length n : 0 <= n <= 999 -> String.length (format_0 3 n) = 3%nat.
Proof.
  intros Hn. destruct (format_0_nonneg 3 n ltac:(lia)) as [_ ->].
  assert (String.length (pretty n) <= 3)%nat; [|lia].
  apply (pretty_length_le 3 1000); [by vm_compute|lia].
Qed.

Lemma seconds_to_vtt_time_int n :
  seconds_to_vtt_time (Int n)
  = Ok (vtt_time (n `div` 3600) ((n `mod` 3600) `div` 60) (n `mod` 60) 0).
Proof.
  unfold seconds_to_vtt_time, floordiv, mod_, sub, mul, arith. cbn.
  rewrite Z.sub_diag. done.
Qed.

(** C2, as it was stated, fails.  The milliseconds are not the fraction of
    a second cut to milliseconds: for the float [0.11699999999999999], where
    that is 116, the time printed is [00:00:00.117].  A negative time is not
    printed with fields in range: [-1e-20] gives [-1:60:60.000] and the
    integer [-1] gives [-1:59:59.000].  From [2^63] seconds on the hours can
    be wrong: [1.4475014964441887e+19] is 4020837490122746 hours, 18 minutes
    and 40 seconds, and 4020837490122745 hours are printed.  A float that is
    not finite is not printed at all. *)
Lemma milliseconds_not_truncated :
  nonneg just_below_117ms
  /\ val just_below_117ms < 2 ^ 53 * second
  /\ (fraction_of (val just_below_117ms) * 1000) `div` second = 116
  /\ seconds_to_vtt_time (Float just_below_117ms) = Ok "00:00:00.117"
  /\ seconds_to_vtt_time (Float just_below_zero) = Ok "-1:60:60.000"
  /\ seconds_to_vtt_time (Int (-1)) = Ok "-1:59:59.000"
  /\ nonneg above_2_63
  /\ hours_of (val above_2_63) = 4020837490122746
  /\ seconds_to_vtt_time (Float above_2_63) = Ok "4020837490122745:18:40.000"
  /\ seconds_to_vtt_time (Float S754_nan) = Raise ValueError.
Proof. repeat split; by vm_compute. Qed.

(** C2, amended.  [seconds_to_vtt_time] prints a time that is not negative
    as [HH:MM:SS.mmm].  For an integer [n] the fields are [n / 3600],
    [(n mod 3600) / 60], [n mod 60] and [000].  For a finite float that is
    not negative and below [2^53] seconds the hours, minutes and whole
    seconds are those of its exact value, and the milliseconds are the
    integer part of the float product of the fraction of a second by 1000,
    that is of the exact product rounded to the nearest float: they are
    between 0 and 999, and they are the fraction cut to milliseconds or one
    more, the former whenever the product is a float.  Hours are not
    bounded and are padded with zeros to at least two digits; minutes and
    seconds are between 0 and 59, on two digits; milliseconds are on three
    digits.  A float that is not finite raises [ValueError].  In particular
    0 gives [00:00:00.000], 3725.4 gives [01:02:05.400] and 59.999 gives
    [00:00:59.999]. *)
Theorem seconds_to_vtt_time_fields :
  (forall n : Z,
     seconds_to_vtt_time (Int n)
     = Ok (vtt_time (n `div` 3600) ((n `mod` 3600) `div` 60) (n `mod` 60) 0)
     /\ 0 <= (n `mod` 3600) `div` 60 <= 59
     /\ 0 <= n `mod` 60 <= 59
     /\ n = (n `div` 3600 * 60 + (n `mod` 3600) `div` 60) * 60 + n `mod` 60
     /\ (0 <= n -> 0 <= n `div` 3600))
  /\ (forall x : float, nonneg x -> val x < 2 ^ 53 * second ->
        seconds_to_vtt_time (Float x)
        = Ok (vtt_time (hours_of (val x)) (minutes_of (val x)) (seconds_of (val x))
                (milliseconds_of (val x)))
        /\ (fraction_of (val x) * 1000) `div` second <= milliseconds_of (val x)
           <= (fraction_of (val x) * 1000) `div` second + 1
        /\ (representable (fraction_of (val x) * 1000) ->
            milliseconds_of (val x) = (fraction_of (val x) * 1000) `div` second)
        /\ 0 <= milliseconds_of (val x) <= 999
        /\ 0 <= hours_of (val x)
        /\ 0 <= minutes_of (val x) <= 59
        /\ 0 <= seconds_of (val x) <= 59
        /\ val x = ((hours_of (val x) * 60 + minutes_of (val x)) * 60
                    + seconds_of (val x)) * second + fraction_of (val x))
  /\ seconds_to_vtt_time (Float S754_nan) = Raise ValueError
  /\ (forall s : bool, seconds_to_vtt_time (Float (S754_infinity s)) = Raise ValueError)
  /\ (forall hours minutes whole ms,
        0 <= hours -> 0 <= minutes <= 59 -> 0 <= whole <= 59 -> 0 <= ms <= 999 ->
        vtt_time hours minutes whole ms
        = format_0 2 hours +:+ ":" +:+ format_0 2 minutes +:+ ":"
          +:+ format_0 2 whole +:+ "." +:+ format_0 3 ms
        /\ format_0 2 hours = zeros (2 - String.length (pretty hours)) +:+ pretty hours
        /\ (2 <= String.length (format_0 2 hours))%nat
        /\ String.length (format_0 2 minutes) = 2%nat
        /\ String.length (format_0 2 whole) = 2%nat
        /\ String.length (format_0 3 ms) = 3%nat)
  /\ seconds_to_vtt_time (Int 0) = Ok "00:00:00.000"
  /\ seconds_to_vtt_time (Float (float_lit 37254 1)) = Ok "01:02:05.400"
  /\ seconds_to_vtt_time (Float (float_lit 59999 3)) = Ok "00:00:59.999".
Proof.
  split; [|split; [|split; [|split; [|split; [|repeat split; by vm_compute]]]]].
  - intros n. split; [apply seconds_to_vtt_time_int|].
    pose proof (Z.mod_pos_bound n 3600 ltac:(lia)) as H1.
    pose proof (Z.mod_pos_bound n 60 ltac:(lia)) as H2.
    pose proof (Z.div_mod n 3600 ltac:(lia)) as E1.
    pose proof (Z.div_mod (n `mod` 3600) 60 ltac:(lia)) as E2.
    assert ((n `mod` 3600) `mod` 60 = n `mod` 60) as E3.
    { apply Z.mod_mod_divide. exists 60. lia. }
    assert (0 <= (n `mod` 3600) `div` 60) by (apply Z.div_pos; lia).
    assert ((n `mod` 3600) `div` 60 < 60) by (apply Z.div_lt_upper_bound; lia).
    split; [lia|]. split; [lia|]. split; [lia|].
    intros Hn. apply Z.div_pos; lia.
  - intros x Hx Hlt.
    destruct (seconds_to_vtt_time_float_ms x Hx Hlt) as (E & Hms & Hms').
    pose proof (fields_bounds (val x) (nonneg_val x Hx)) as (? & ? & ? & ? & ?).
    split; [done|]. split; [done|].
    split; [apply milliseconds_of_exact; by apply nonneg_val|].
    repeat split; try done; lia.
  - by vm_compute.
  - intros []; by vm_compute.
  - intros hours minutes whole ms Hh Hm Hw Hms.
    split; [done|]. destruct (format_0_nonneg 2 hours Hh) as [E1 E2].
    split; [done|]. split; [rewrite E2; lia|].
    split; [by apply format_0_2_length; lia|].
    split; [by apply format_0_2_length; lia|]. by apply format_0_3_length.
Qed.

Lemma seconds_to_vtt_time_fields_witness :
  nonneg (float_lit 37254 1)
  /\ val (float_lit 37254 1) < 2 ^ 53 * second
  /\ seconds_to_vtt_time (Float (float_lit 37254 1))
     = Ok (vtt_time (hours_of (val (float_lit 37254 1)))
             (minutes_of (val (float_lit 37254 1)))
             (seconds_of (val (float_lit 37254 1)))
             (milliseconds_of (val (float_lit 37254 1))))
  /\ hours_of (val (float_lit 37254 1)) = 1
  /\ minutes_of (val (float_lit 37254 1)) = 2
  /\ seconds_of (val (float_lit 37254 1)) = 5
  /\ milliseconds_of (val (float_lit 37254 1)) = 400
  /\ milliseconds_of (val just_below_117ms) = 117.
Proof.
  split; [by vm_compute|]. split; [by vm_compute|].
  split; [|repeat split; by vm_compute].
  destruct seconds_to_vtt_time_fields as (_ & H & _).
  destruct (H (float_lit 37254 1)) as [E _]; [by vm_compute|by vm_compute|].
  exact E.
Defined.

(** ** The segmenter *)

Section Segmenter.

Variable ext : externals.

Lemma split_loop_fold src base sl tot starts (k : nat) w :
  split_loop ext src base (join "slices" base) sl tot starts (Z.of_nat k) w
  = foldl (export_clip ext src base) w
      (imap (fun i st => (Z.of_nat (k + i), st, Z.min (st + sl) tot)) starts).
Proof.
  revert k w. induction starts as [|st rest IH]; intros k w; [done|].
  cbn [split_loop imap foldl].
  replace (Z.of_nat k + 1) with (Z.of_nat (S k)) by lia.
  rewrite IH. unfold export_clip at 2, clip_path. cbn [fst snd].
  rewrite Nat.add_0_r. f_equal.
  apply imap_ext. intros i x _. cbn. do 3 f_equal. lia.
Qed.

Lemma split_file_clips file_name split_size w bytes src :
  files w !! file_name = Some bytes ->
  decode_mp3 ext bytes = Ok src ->
  split_size ≠ 0 ->
  split_file ext file_name split_size w
  = (Ok (join "slices" (stem file_name)),
     foldl (export_clip ext src (stem file_name)) w
           (clips split_size (Z.of_nat (length src)))).
Proof.
  intros Hf Hd HS. unfold split_file, clips. rewrite Hf, Hd.
  unfold range. destruct (Z.eqb_spec (split_size * 60 * 1000) 0); [lia|].
  f_equal. apply (split_loop_fold _ _ _ _ _ 0%nat).
Qed.

End Segmenter.

(** *** The clips *)

Lemma range_pos D sl :
  0 < sl -> 0 <= D ->
  range 0 D sl = Ok ((fun k : nat => Z.of_nat k * sl) <$> seq 0 (Z.to_nat (ceil_div D sl))).
Proof.
  intros Hs HD. unfold range, ceil_div.
  destruct (Z.eqb_spec sl 0); [lia|].
  destruct (Z.ltb_spec 0 sl); [|lia].
  f_equal. 
  assert ((if 0 <? D then (D - 0 - 1) `div` sl + 1 else 0) = (D + sl - 1) `div` sl) as ->.
  { destruct (Z.ltb_spec 0 D).
    - rewrite <- Z.div_add by lia. f_equal. lia.
    - assert (D = 0) as -> by lia. rewrite Z.div_small; lia. }
  apply list_fmap_ext. intros; lia.
Qed.

Lemma clips_pos sz D :
  0 < sz -> 0 <= D ->
  clips sz D = (fun k : nat => (Z.of_nat k, Z.of_nat k * (sz * 60000),
                               Z.min ((Z.of_nat k + 1) * (sz * 60000)) D))
              <$> seq 0 (Z.to_nat (ceil_div D (sz * 60000))).
Proof.
  intros Hsz HD. unfold clips. replace (sz * 60 * 1000) with (sz * 60000) by lia.
  rewrite range_pos by lia. unfold clips_from.
  generalize (Z.to_nat (ceil_div D (sz * 60000))) as n. intros n.
  rewrite imap_fmap. unfold compose.
  apply list_eq. intros i.
  rewrite list_lookup_imap, !list_lookup_fmap.
  destruct (decide (i < n)%nat).
  - rewrite lookup_seq_lt by done. cbn. do 3 f_equal. lia.
  - rewrite lookup_seq_ge by lia. done.
Qed.

Lemma clips_length sz D :
  0 < sz -> 0 <= D -> Z.of_nat (length (clips sz D)) = ceil_div D (sz * 60000).
Proof.
  intros. rewrite clips_pos by done. rewrite length_fmap, length_seq.
  unfold ceil_div. apply Z2Nat.id. apply Z.div_pos; lia.
Qed.

Lemma clips_lookup sz D (i : nat) :
  0 < sz -> 0 <= D -> Z.of_nat i < ceil_div D (sz * 60000) ->
  clips sz D !! i = Some (Z.of_nat i, Z.of_nat i * (sz * 60000),
                         Z.min ((Z.of_nat i + 1) * (sz * 60000)) D).
Proof.
  intros. rewrite clips_pos by done. rewrite list_lookup_fmap.
  rewrite lookup_seq_lt by lia. done.
Qed.

Lemma ceil_div_gt D sl k : 0 < sl -> k < ceil_div D sl <-> k * sl < D.
Proof.
  intros. unfold ceil_div. split; intros.
  - assert (k + 1 <= (D + sl - 1) `div` sl) by lia.
    assert ((k+1) * sl <= D + sl - 1); [|lia].
    etrans; [|apply (Z.mul_div_le _ sl); lia]. nia.
  - assert (k + 1 <= (D + sl - 1) `div` sl); [|lia].
    apply Z.div_le_lower_bound; lia.
Qed.

(** Exhaustive and without overlap: the clips, one after the other, are the
    source. *)
Lemma clips_concat (src : AudioSegment) sz :
  0 < sz ->
  concat ((fun c : Z * Z * Z => audio_slice src c.1.2 c.2) <$> clips sz (Z.of_nat (length src))) = src.
Proof.
  intros Hsz. set (D := Z.of_nat (length src)). set (sl := sz * 60000).
  rewrite clips_pos by lia. fold sl. rewrite <- list_fmap_compose. unfold compose. cbn.
  assert (0 < sl) as Hsl by (unfold sl; lia). clearbody sl.
  assert (forall n : nat, Z.of_nat n <= ceil_div D sl ->
     concat ((fun k : nat => audio_slice src (Z.of_nat k * sl) (Z.min ((Z.of_nat k + 1) * sl) D)) <$> seq 0 n)
     = take (Z.to_nat (Z.min (Z.of_nat n * sl) D)) src) as Hn.
  { induction n as [|n IH]; intros Hle.
    - rewrite Z.min_l by lia. done.
    - rewrite seq_S, fmap_app, concat_app, IH by lia. cbn [fmap list_fmap concat].
      rewrite app_nil_r. unfold audio_slice.
      assert (Z.of_nat n * sl < D) by (apply ceil_div_gt; lia).
      rewrite (Z.min_l (Z.of_nat n * sl)) by lia.
      rewrite take_take_drop. f_equal.
      assert (0 <= Z.of_nat n * sl) by nia. cbn [Nat.add].
      replace (Z.of_nat (S n) * sl) with (Z.of_nat n * sl + sl) by lia.
      replace ((Z.of_nat n + 1) * sl) with (Z.of_nat n * sl + sl) by lia.
      generalize dependent (Z.of_nat n * sl). intros a; intros. lia. }
  assert (0 <= ceil_div D sl) as Hc by (apply Z.div_pos; lia).
  rewrite Hn by lia.
  apply take_ge.
  destruct (decide (D = 0)) as [H0|H0].
  - lia.
  - assert ((ceil_div D sl - 1) * sl < D) by (apply ceil_div_gt; lia).
    assert (~ ceil_div D sl * sl < D) by (intros ?%ceil_div_gt; lia).
    rewrite Z2Nat.id by done. lia.
Qed.

(** *** Strings *)

Lemma contains_app c s t : contains c (s +:+ t) = contains c s || contains c t.
Proof. induction s as [|a s IH]; simpl; [done|]. rewrite IH. by rewrite orb_assoc. Qed.

(** What precedes the first [c] holds no [c], and the string is that
    prefix alone or that prefix, a [c] and the rest. *)
Lemma before_first_spec c s :
  contains c (before_first c s) = false /\
  exists rest, s = before_first c s +:+ rest /\
               (rest = "" \/ exists r, rest = String c r).
Proof.
  induction s as [|a s (IH1 & rest & IH2 & IH3)]; simpl.
  - split; [done|]. exists "". eauto.
  - case_bool_decide as Ha.
    + subst a. split; [done|]. exists (String c s). eauto.
    + simpl. rewrite IH1, orb_false_r. split; [by apply bool_decide_eq_false|].
      exists rest. split; [by rewrite IH2 at 1|done].
Qed.

(** What follows the last [c] holds no [c], and what precedes it is empty
    or ends with a [c]. *)
Lemma after_last_spec c s :
  contains c (after_last c s) = false /\
  exists pre, s = pre +:+ after_last c s /\
              (pre = "" \/ exists p, pre = p +:+ String c "").
Proof.
  induction s as [|a s (IH1 & pre & IH2 & IH3)]; simpl.
  - split; [done|]. exists "". eauto.
  - destruct (contains c s) eqn:Hc.
    + split; [done|]. exists (String a pre). split; [change (String a s = String a (pre +:+ after_last c s)); congruence|].
      right. destruct IH3 as [->|(p & ->)].
      * assert (s = after_last c s) as E by exact IH2. rewrite <- E in IH1. congruence.
      * by exists (String a p).
    + case_bool_decide as Ha.
      * subst a. split; [done|]. exists (String c ""). split; [done|]. right. by exists "".
      * split. { simpl. rewrite Hc, orb_false_r. by apply bool_decide_eq_false. }
        exists "". by split; [|left].
Qed.

Lemma stem_no_slash f : contains slash (stem f) = false.
Proof.
  unfold stem, before_first_dot, basename.
  destruct (after_last_spec slash f) as (H1 & _).
  destruct (before_first_spec dot (after_last slash f)) as (_ & rest & H2 & _).
  rewrite H2, contains_app in H1. by apply orb_false_iff in H1 as [? _].
Qed.

Lemma stem_no_dot f : contains dot (stem f) = false.
Proof. apply before_first_spec. Qed.

Lemma starts_with_slash_contains s : contains slash s = false -> starts_with_slash s = false.
Proof. destruct s as [|a s]; simpl; [done|]. by intros [? _]%orb_false_iff. Qed.

Lemma join_slices base : contains slash base = false -> join "slices" base = "slices/" +:+ base.
Proof. intros H. unfold join. by rewrite starts_with_slash_contains. Qed.

(** The decimal digits of a number hold no character but digits. *)
Lemma pretty_N_go_contains c x s :
  (forall d, pretty_N_char d ≠ c) ->
  contains c (pretty_N_go x s) = contains c s.
Proof.
  intros Hc. revert s. induction (N.lt_wf_0 x) as [x _ IH]; intros s.
  destruct (decide (x = 0)%N) as [->|Hx]; [done|].
  rewrite pretty_N_go_step by lia. rewrite IH by (apply N.div_lt; lia).
  simpl. by rewrite bool_decide_eq_false_2.
Qed.

Lemma pretty_Z_contains c (z : Z) : not_digit_or_minus c -> contains c (pretty z) = false.
Proof.
  intros [Hm Hd]. 
  assert (forall p, contains c (pretty (Npos p)) = false) as HN.
  { intros p. unfold pretty, pretty_N. rewrite decide_False by done.
    by rewrite pretty_N_go_contains. }
  destruct z as [|p|p]; [| apply HN |].
  - simpl. rewrite bool_decide_eq_false_2; [done|]. apply (Hd 0%N).
  - change (pretty (Z.neg p)) with ("-" +:+ pretty (Npos p)).
    rewrite contains_app, HN. simpl. by rewrite bool_decide_eq_false_2.
Qed.

Lemma underscore_not_digit : not_digit_or_minus "_"%char.
Proof. split; [done|]. intros d. unfold pretty_N_char. by repeat case_match. Qed.

Lemma slash_not_digit : not_digit_or_minus slash.
Proof. split; [done|]. intros d. unfold pretty_N_char. by repeat case_match. Qed.

(** Two strings that agree up to their first [c] have the same prefix
    before it. *)
Lemma app_sep_inj c a a' x x' :
  contains c a = false -> contains c a' = false ->
  a +:+ String c x = a' +:+ String c x' -> a = a' /\ x = x'.
Proof.
  revert a'. induction a as [|h a IH]; intros [|h' a']; simpl; intros Ha Ha' E.
  - by injection E.
  - injection E as <- _. by rewrite bool_decide_eq_true_2 in Ha'.
  - injection E as -> _. by rewrite bool_decide_eq_true_2 in Ha.
  - injection E as -> E. apply orb_false_iff in Ha as [_ Ha], Ha' as [_ Ha'].
    destruct (IH a' Ha Ha' E) as [-> ->]. done.
Qed.

Lemma clip_name_inj base i s e i' s' e' :
  clip_name base i s e = clip_name base i' s' e' -> i = i'.
Proof.
  unfold clip_name, str_int. intros E.
  apply (inj (String.app base)) in E. 
  change ("_" +:+ ?x) with (String "_" x) in E. injection E as E.
  apply app_sep_inj in E as [E _]; try (apply pretty_Z_contains, underscore_not_digit).
  by apply (inj pretty) in E.
Qed.

Lemma clip_name_no_leading_slash base i s e :
  contains slash base = false -> starts_with_slash (clip_name base i s e) = false.
Proof.
  intros Hb. unfold clip_name. destruct base as [|a b]; [done|].
  simpl in *. by apply orb_false_iff in Hb as [-> _].
Qed.

Lemma clip_path_inj base c c' :
  contains slash base = false -> clip_path base c = clip_path base c' -> c.1.1 = c'.1.1.
Proof.
  intros Hb. unfold clip_path, join at 1 3.
  rewrite !clip_name_no_leading_slash by done.
  destruct (_ || _); intros E.
  - apply (inj (String.app _)) in E. by apply clip_name_inj in E.
  - apply (inj (String.app _)) in E. injection E as E. by apply clip_name_inj in E.
Qed.

Lemma clips_from_index sl tot starts (i : nat) c :
  clips_from sl tot starts !! i = Some c -> c.1.1 = Z.of_nat i.
Proof.
  unfold clips_from. rewrite list_lookup_imap.
  destruct (starts !! i); [|done]. by intros [= <-].
Qed.

Lemma clips_index sz D (i : nat) c : clips sz D !! i = Some c -> c.1.1 = Z.of_nat i.
Proof. unfold clips. destruct (range _ _ _); [apply clips_from_index|done]. Qed.

Lemma clip_paths_NoDup base sz D :
  contains slash base = false -> NoDup (clip_path base <$> clips sz D).
Proof.
  intros Hb. apply NoDup_alt. intros i j p.
  rewrite !list_lookup_fmap. 
  destruct (clips sz D !! i) as [c|] eqn:Hi; [|done].
  destruct (clips sz D !! j) as [c'|] eqn:Hj; [|done].
  intros [= <-] [= E]. apply clip_path_inj in E; [|done].
  apply clips_index in Hi, Hj. lia.
Qed.

Lemma filter_ext_in {A} (P Q : A -> Prop) `{!forall x, Decision (P x)}
    `{!forall x, Decision (Q x)} (l : list A) :
  (forall x, x ∈ l -> P x <-> Q x) -> filter P l = filter Q l.
Proof.
  induction l as [|a l IH]; intros HPQ; [done|].
  rewrite !filter_cons.
  rewrite IH by (intros x Hx; apply HPQ, elem_of_cons; by right).
  assert (P a <-> Q a) as Ha by (apply HPQ, elem_of_cons; by left).
  destruct (decide (P a)), (decide (Q a)); tauto || done.
Qed.

Section Exports.
Variable ext : externals.
Variable src : AudioSegment.
Variable base : string.

Local Abbreviation run := (foldl (export_clip ext src base)).
Local Abbreviation path := (clip_path base).
Local Abbreviation payload c := (encode_mp3 ext (audio_slice src c.1.2 c.2)).

(** A file that exists is never written again. *)
Lemma run_keeps cs w p x : files w !! p = Some x -> files (run w cs) !! p = Some x.
Proof.
  revert w. induction cs as [|c cs IH]; intros w Hp; [done|].
  simpl. apply IH. unfold export_clip.
  destruct (files w !! path c) eqn:Hc; [done|]. simpl.
  rewrite lookup_insert_ne; [done|]. congruence.
Qed.

(** Paths that are no clip's are left as they were. *)
Lemma run_other cs w p : p ∉ (path <$> cs) -> files (run w cs) !! p = files w !! p.
Proof.
  revert w. induction cs as [|c cs IH]; intros w Hp; [done|].
  simpl in *. apply not_elem_of_cons in Hp as [Hne Hp]. rewrite IH by done.
  unfold export_clip. destruct (files w !! path c); [done|]. simpl.
  by rewrite lookup_insert_ne.
Qed.

(** After the loop every clip has its file. *)
Lemma run_exists cs w c : c ∈ cs -> is_Some (files (run w cs) !! path c).
Proof.
  revert w. induction cs as [|c' cs IH]; intros w Hc; [by apply elem_of_nil in Hc|].
  apply elem_of_cons in Hc as [->|Hc]; [|by apply IH].
  simpl. unfold export_clip at 2.
  destruct (files w !! path c') eqn:E.
  - eexists. by eapply run_keeps.
  - eexists. eapply run_keeps. simpl. apply lookup_insert_eq.
Qed.

(** The clips whose file is missing are exported, in order, each with
    its own slice; nothing else is. *)
Lemma run_exports cs w :
  NoDup (path <$> cs) ->
  trace (run w cs)
  = trace w ++ (Exported ∘ path <$> filter (fun c => files w !! path c = None) cs)
  /\ forall c, c ∈ cs -> files w !! path c = None ->
               files (run w cs) !! path c = Some (payload c).
Proof.
  revert w. induction cs as [|c cs IH]; intros w Hnd.
  - simpl. rewrite app_nil_r. split; [done|]. intros c Hc. by apply elem_of_nil in Hc.
  - rewrite fmap_cons in Hnd. apply NoDup_cons in Hnd as [Hc Hnd].
    simpl foldl. destruct (IH (export_clip ext src base w c) Hnd) as [IHt IHf].
    assert (forall c', c' ∈ cs ->
              files (export_clip ext src base w c) !! path c' = files w !! path c') as Hsame.
    { intros c' Hc'. unfold export_clip. destruct (files w !! path c); [done|].
      simpl. rewrite lookup_insert_ne; [done|]. intros E. apply Hc.
      rewrite E. apply list_elem_of_fmap. eauto. }
    split.
    + rewrite IHt. rewrite filter_cons.
      rewrite (filter_ext_in _ (fun c => files w !! path c = None) cs)
        by (intros c' Hc'; by rewrite Hsame).
      unfold export_clip at 1. destruct (files w !! path c) eqn:E.
      * by rewrite decide_False.
      * rewrite decide_True by done. simpl. by rewrite <- app_assoc.
    + intros c' Hc' Hnone. apply elem_of_cons in Hc' as [->|Hc'].
      * eapply run_keeps. unfold export_clip. rewrite Hnone. simpl.
        apply lookup_insert_eq.
      * apply IHf; [done|]. by rewrite Hsame.
Qed.

(** When every clip has its file already, the loop does nothing. *)
Lemma run_all_present cs w :
  (forall c, c ∈ cs -> is_Some (files w !! path c)) -> run w cs = w.
Proof.
  revert w. induction cs as [|c cs IH]; intros w Hall; [done|].
  simpl. destruct (Hall c) as [x Hx]; [apply elem_of_cons; by left|].
  unfold export_clip at 2. rewrite Hx. apply IH. intros c' Hc'. apply Hall.
  apply elem_of_cons. by right.
Qed.

End Exports.

(** *** What [split_file] guarantees *)

Lemma ceil_div_bounds d s :
  0 < s -> 0 <= d -> d <= ceil_div d s * s /\ (0 < d -> (ceil_div d s - 1) * s < d).
Proof.
  intros Hs Hd. split.
  - destruct (Z.le_gt_cases d (ceil_div d s * s)) as [|H]; [done|].
    apply ceil_div_gt in H; lia.
  - intros. apply ceil_div_gt; lia.
Qed.

(** C1.  For a recording of [D] milliseconds and a positive slice size of
    [split_size] minutes, that is [S = split_size * 60 * 1000] milliseconds,
    [split_file] succeeds and visits the clips [clips split_size D], of which
    there are [ceil (D / S)]; clip [i] covers [[i * S, min ((i + 1) * S) D)];
    every clip has a positive duration; each clip starts where the one
    before ends, the first at [0] and the last ending at [D], and the clips
    one after the other are the recording; a recording no longer than one
    slice gives the one clip [[0, D)], and a recording of exactly [k] slices
    gives [k] clips.  Where no clip file exists yet, exactly these clips are
    exported, in order, each file holding its own slice. *)
Theorem split_file_partition (ext : externals) (file_name : string)
    (split_size : Z) (w : world) (bytes : string) (src : AudioSegment) :
  files w !! file_name = Some bytes ->
  decode_mp3 ext bytes = Ok src ->
  0 < split_size ->
  let S := split_size * 60 * 1000 in
  let D := Z.of_nat (length src) in
  let base := stem file_name in
  let cs := clips split_size D in
  let w' := foldl (export_clip ext src base) w cs in
  split_file ext file_name split_size w = (Ok (join "slices" base), w')
  /\ Z.of_nat (length cs) = ceil_div D S
  /\ (D <= ceil_div D S * S /\ (0 < D -> (ceil_div D S - 1) * S < D))
  /\ (forall i : nat, Z.of_nat i < ceil_div D S ->
        cs !! i = Some (Z.of_nat i, Z.of_nat i * S, Z.min ((Z.of_nat i + 1) * S) D))
  /\ (forall i s e, (i, s, e) ∈ cs -> 0 <= s /\ s < e /\ e <= D)
  /\ (forall (i : nat) c c', cs !! i = Some c -> cs !! (i + 1)%nat = Some c' -> c'.1.2 = c.2)
  /\ (forall c, head cs = Some c -> c.1.2 = 0)
  /\ (forall c, last cs = Some c -> c.2 = D)
  /\ concat ((fun c : Z * Z * Z => audio_slice src c.1.2 c.2) <$> cs) = src
  /\ (0 < D <= S -> cs = [(0, 0, D)])
  /\ (forall k, 0 <= k -> D = k * S -> Z.of_nat (length cs) = k)
  /\ ((forall c, c ∈ cs -> files w !! clip_path base c = None) ->
      trace w' = trace w ++ (Exported ∘ clip_path base <$> cs)
      /\ forall c, c ∈ cs ->
           files w' !! clip_path base c
           = Some (encode_mp3 ext (audio_slice src c.1.2 c.2))).
Proof.
  intros Hf Hd Hsz S D base cs w'.
  assert (0 < S) as HS by (unfold S; lia).
  assert (0 <= D) as HD by (unfold D; lia).
  assert (S = split_size * 60000) as ES by (unfold S; lia).
  assert (0 <= ceil_div D S) as Hc by (apply Z.div_pos; lia).
  assert (Hlen : Z.of_nat (length cs) = ceil_div D S).
  { unfold cs. rewrite clips_length by lia. by rewrite ES. }
  assert (Hlook : forall i : nat, Z.of_nat i < ceil_div D S ->
        cs !! i = Some (Z.of_nat i, Z.of_nat i * S, Z.min ((Z.of_nat i + 1) * S) D)).
  { intros i Hi. unfold cs. rewrite ES in *. by apply clips_lookup. }
  assert (Hall : forall (i : nat) c, cs !! i = Some c ->
        Z.of_nat i * S < D /\ c = (Z.of_nat i, Z.of_nat i * S, Z.min ((Z.of_nat i + 1) * S) D)).
  { intros i c Hi. assert (Z.of_nat i < ceil_div D S) as Hlt.
    { apply lookup_lt_Some in Hi. lia. }
    split; [by apply ceil_div_gt|]. rewrite Hlook in Hi by done. congruence. }
  split; [|split; [|split; [|split; [|split; [|split; [|split; [|split; [|split; [|split; [|split]]]]]]]]]].
  - eapply split_file_clips; [exact Hf|exact Hd|lia].
  - done.
  - by apply ceil_div_bounds.
  - done.
  - intros i s e [j Hj]%list_elem_of_lookup. apply Hall in Hj as [Hlt [= -> -> ->]]. nia.
  - intros i c c' Hi Hi'. apply Hall in Hi as [_ ->], Hi' as [Hlt ->]. simpl.
    replace (Z.of_nat (i + 1)) with (Z.of_nat i + 1) in * by lia. lia.
  - intros c Hh. rewrite head_lookup in Hh. apply Hall in Hh as [_ ->]. simpl. lia.
  - intros c Hl. rewrite last_lookup in Hl. 
    assert (Z.of_nat (pred (length cs)) = ceil_div D S - 1) as Hp.
    { apply lookup_lt_Some in Hl. lia. }
    apply Hall in Hl as [Hlt ->]. simpl. rewrite Hp.
    replace (ceil_div D S - 1 + 1) with (ceil_div D S) by lia.
    pose proof (ceil_div_bounds D S HS HD) as [? _]. lia.
  - by apply clips_concat.
  - intros [HD0 HDS].
    assert (ceil_div D S = 1) as H1.
    { pose proof (ceil_div_bounds D S HS HD) as [? ?]. 
      assert (0 < ceil_div D S) by nia. nia. }
    apply list_eq. intros [|i].
    + rewrite Hlook by lia. simpl. f_equal. f_equal. lia.
    + simpl. apply lookup_ge_None. lia.
  - intros k Hk HDk. rewrite Hlen.
    destruct (decide (k = 0)) as [->|Hk0].
    + assert (D = 0) as -> by lia. unfold ceil_div. apply Z.div_small. lia.
    + pose proof (ceil_div_bounds D S HS HD) as [? ?]. nia.
  - intros Hnone.
    destruct (run_exports ext src base cs w) as [Ht Hfs].
    { apply clip_paths_NoDup, stem_no_slash. }
    split; [|by auto].
    fold w' in Ht. rewrite Ht. f_equal. f_equal.
    clear -Hnone. induction cs as [|c cs IH]; [done|].
    rewrite filter_cons, decide_True by (apply Hnone; left).
    f_equal. apply IH. intros c' Hc'. apply Hnone. by right.
Qed.

(** C7.  [split_file] leaves the clips that are already on disk alone: it
    exports exactly the clips whose destination file is missing, in order
    and each under its own index; a file that exists keeps its contents
    (so for a clip whose file exists nothing is exported and nothing is
    written); the index of a clip is its position among all clips, whether
    or not earlier ones were skipped; when every clip file exists the run
    exports nothing and changes nothing; and a second run on the state the
    first one left does nothing at all. *)
Theorem split_file_idempotent (ext : externals) (file_name : string)
    (split_size : Z) (w : world) (bytes : string) (src : AudioSegment) :
  files w !! file_name = Some bytes ->
  decode_mp3 ext bytes = Ok src ->
  split_size ≠ 0 ->
  let base := stem file_name in
  let cs := clips split_size (Z.of_nat (length src)) in
  exists dir w',
    split_file ext file_name split_size w = (Ok dir, w')
    /\ trace w' = trace w ++ (Exported ∘ clip_path base
                               <$> filter (fun c => files w !! clip_path base c = None) cs)
    /\ (forall p x, files w !! p = Some x -> files w' !! p = Some x)
    /\ (forall c, c ∈ cs -> files w !! clip_path base c = None ->
          files w' !! clip_path base c
          = Some (encode_mp3 ext (audio_slice src c.1.2 c.2)))
    /\ (forall (i : nat) c, cs !! i = Some c -> c.1.1 = Z.of_nat i)
    /\ ((forall c, c ∈ cs -> is_Some (files w !! clip_path base c)) -> w' = w)
    /\ split_file ext file_name split_size w' = (Ok dir, w').
Proof.
  intros Hf Hd Hsz base cs.
  eexists _, _. split; [by eapply split_file_clips|]. fold base cs.
  destruct (run_exports ext src base cs w) as [Ht Hfs].
  { apply clip_paths_NoDup, stem_no_slash. }
  split; [done|]. split; [intros; by apply run_keeps|]. split; [done|].
  split; [intros; by eapply clips_index|]. split; [apply run_all_present|].
  erewrite split_file_clips; [| by apply run_keeps | done..].
  fold base cs. f_equal. apply run_all_present. intros c Hc. by apply run_exists.
Qed.

Lemma split_file_ok ext file_name split_size w dir w' :
  split_file ext file_name split_size w = (Ok dir, w') ->
  exists bytes src,
    files w !! file_name = Some bytes /\ decode_mp3 ext bytes = Ok src /\
    split_size ≠ 0 /\ dir = join "slices" (stem file_name) /\
    w' = foldl (export_clip ext src (stem file_name)) w
               (clips split_size (Z.of_nat (length src))).
Proof.
  intros H. unfold split_file in H.
  destruct (files w !! file_name) as [bytes|] eqn:Hf; [|done].
  destruct (decode_mp3 ext bytes) as [src|] eqn:Hd; [|done].
  destruct (decide (split_size = 0)) as [->|Hsz]; [done|].
  exists bytes, src.
  pose proof (split_file_clips ext file_name split_size w bytes src Hf Hd Hsz) as E.
  unfold split_file in E. rewrite Hf, Hd in E.
  destruct (range _ _ _) eqn:Hr; [|done]. injection H as <- <-.
  injection E as E. done.
Qed.

(** C10.  The base name of a source path is what precedes the first dot of
    what follows its last slash: it holds neither a slash nor a dot, and
    the path is some directories, the base name, and nothing more or a dot
    and the rest.  The directory of the slices, the names of the clips and
    the name of the output document are all derived from it; for
    ["talk.v2.mp3"] it is ["talk"], not ["talk.v2"]. *)
Theorem stem_before_first_dot (file_name : string) :
  let base := stem file_name in
  (exists dirs rest,
      file_name = dirs +:+ base +:+ rest
      /\ (dirs = "" \/ exists p, dirs = p +:+ "/")
      /\ contains slash (base +:+ rest) = false
      /\ contains dot base = false
      /\ (rest = "" \/ exists r, rest = "." +:+ r))
  /\ (forall ext split_size w dir w',
        split_file ext file_name split_size w = (Ok dir, w') ->
        dir = "slices/" +:+ base
        /\ exists cs : list (Z * Z * Z),
             trace w' = trace w
               ++ ((fun c => Exported (join dir (clip_name base c.1.1 c.1.2 c.2))) <$> cs))
  /\ (forall ext split_size format key w w',
        main ext file_name split_size format key false w = (Ok (), w') ->
        last (trace w') = Some (Written (base +:+ "." +:+ format))
        /\ is_Some (files w' !! (base +:+ "." +:+ format)))
  /\ stem "talk.v2.mp3" = "talk"
  /\ stem "recordings/talk.v2.mp3" = "talk"
  /\ clip_path (stem "talk.v2.mp3") (0, 0, 600000) = "slices/talk/talk_0_0_600000.mp3".
Proof.
  intros base. split; [|split; [|split; [|by vm_compute]]].
  - unfold base, stem, before_first_dot, basename.
    destruct (after_last_spec slash file_name) as (Hs & dirs & Hf & Hdirs).
    destruct (before_first_spec dot (after_last slash file_name)) as (Hd & rest & Hb & Hrest).
    exists dirs, rest. split; [by rewrite <- Hb|]. split; [done|].
    split; [by rewrite <- Hb|]. done.
  - intros ext split_size w dir w' H.
    apply split_file_ok in H as (bytes & src & Hf & Hd & Hsz & -> & ->).
    split; [apply join_slices, stem_no_slash|].
    destruct (run_exports ext src base (clips split_size (Z.of_nat (length src))) w) as [Ht _].
    { apply clip_paths_NoDup, stem_no_slash. }
    eexists. fold base. rewrite Ht. done.
  - intros ext split_size format key w w' H. unfold main in H.
    destruct (split_file _ _ _ _) as [[dir|e] w1]; [|done].
    destruct (get_transcript _ _ _ _ _ _) as [[t|e] w2]; [|done].
    injection H as <-. simpl. split.
    + by rewrite last_snoc.
    + fold base. rewrite lookup_insert_eq. eauto.
Qed.

(** ** The aggregator *)

Section Aggregator.

Variable ext : externals.

Lemma transcribe_loop_files client dir sz fmt l i t w :
  files (transcribe_loop ext client dir sz fmt l i t w).2 = files w.
Proof.
  revert i t w. induction l as [|f l IH]; intros i t w; simpl; [done|].
  destruct (files w !! join dir f); [|done].
  destruct (transcriptions_create ext client s); [|done].
  destruct (if bool_decide _ then _ else _); [|done].
  by rewrite IH.
Qed.

(** The merged document is what the loop started from followed by the
    contributions of the listed files, in the order of the listing. *)
Lemma transcribe_loop_pieces client dir sz fmt l i t w :
  (transcribe_loop ext client dir sz fmt l i t w).1
  = (ps <- pieces ext client (files w) dir sz fmt l i ;; Ok (t +:+ concat_str ps))%py.
Proof.
  revert i t w. induction l as [|f l IH]; intros i t w; simpl.
  - by rewrite app_str_nil_r.
  - unfold piece. destruct (files w !! join dir f); [|done]. simpl.
    destruct (transcriptions_create ext client s); [|done]. simpl.
    destruct (if bool_decide _ then _ else _); [|done]. simpl.
    rewrite IH. simpl.
    destruct (pieces _ _ _ _ _ _ _ _); [|done]. simpl. by rewrite app_str_assoc.
Qed.

(** Every call of the service is made with the client the loop was
    given, and nothing is written. *)
Lemma transcribe_loop_trace client dir sz fmt l i t w :
  exists evs, trace (transcribe_loop ext client dir sz fmt l i t w).2 = trace w ++ evs
              /\ Forall (fun ev => exists p, ev = Transcribed client p) evs.
Proof.
  revert i t w. induction l as [|f l IH]; intros i t w; simpl.
  - exists []. by rewrite app_nil_r.
  - destruct (files w !! join dir f); [|exists []; by rewrite app_nil_r].
    assert (exists evs, trace (log (Transcribed client (join dir f)) w) = trace w ++ evs
              /\ Forall (fun ev => exists p, ev = Transcribed client p) evs) as H1.
    { eexists [_]. split; [done|]. repeat constructor. eauto. }
    destruct (transcriptions_create ext client s); [|done].
    destruct (if bool_decide _ then _ else _); [|done].
    destruct (IH (i + 1) (t +:+ a0) (log (Transcribed client (join dir f)) w)) as (evs & -> & Hevs).
    eexists (_ :: evs). simpl. rewrite <- app_assoc. split; [done|].
    constructor; eauto.
Qed.

Lemma cues_traverse off segs acc :
  cues off segs acc = (bs <- traverse (cue off) segs ;; Ok (acc +:+ concat_str bs))%py.
Proof.
  revert acc. induction segs as [|sg segs IH]; intros acc; simpl.
  - by rewrite app_str_nil_r.
  - destruct (cue off sg); [|done]. simpl. rewrite IH.
    destruct (traverse _ _); [|done]. simpl. by rewrite app_str_assoc.
Qed.

End Aggregator.

Section Aggregator2.

Variable ext : externals.

Lemma transcribe_loop_app client dir sz fmt l1 l2 i t w :
  transcribe_loop ext client dir sz fmt (l1 ++ l2) i t w
  = match transcribe_loop ext client dir sz fmt l1 i t w with
    | (Ok t', w') =>
        transcribe_loop ext client dir sz fmt l2 (i + Z.of_nat (length l1)) t' w'
    | r => r
    end.
Proof.
  revert i t w. induction l1 as [|f l1 IH]; intros i t w; simpl.
  - by rewrite Z.add_0_r.
  - destruct (files w !! join dir f); [|done].
    destruct (transcriptions_create ext client s); [|done].
    destruct (if bool_decide _ then _ else _); [|done].
    rewrite IH. destruct (transcribe_loop _ _ _ _ _ l1 _ _ _) as [[?|?] ?]; [|done].
    f_equal. lia.
Qed.

(** Whenever the float plus the integer is computed, it is the rebased
    float. *)
Lemma add_float_int t off r :
  add (Float t) (Int off) = Ok r -> r = Float (rebased off t).
Proof.
  unfold add, arith, rebased. cbn [to_float bind]. unfold float_of_int.
  destruct (float_of_Z off); cbn [bind]; intros H; by inversion H.
Qed.

Lemma cue_inv off sg block :
  cue off sg = Ok block ->
  exists start_time end_time,
    seconds_to_vtt_time (Float (rebased off (seg_start sg))) = Ok start_time
    /\ seconds_to_vtt_time (Float (rebased off (seg_end sg))) = Ok end_time
    /\ block = cue_block start_time end_time (seg_text sg).
Proof.
  unfold cue. intros Hc.
  destruct (add (Float (seg_start sg)) _) as [start|] eqn:E1; cbn [bind] in Hc; [|done].
  destruct (add (Float (seg_end sg)) _) as [end_|] eqn:E2; cbn [bind] in Hc; [|done].
  apply add_float_int in E1 as ->. apply add_float_int in E2 as ->.
  destruct (seconds_to_vtt_time (Float (rebased off (seg_start sg)))) as [st|];
    cbn [bind] in Hc; [|done].
  destruct (seconds_to_vtt_time (Float (rebased off (seg_end sg)))) as [et|];
    cbn [bind] in Hc; [|done].
  injection Hc as <-. by exists st, et.
Qed.

(** The blocks of one file start at the rebased start times of its
    segments, in the order of the segments. *)
Lemma traverse_cue_starts off segs blocks :
  traverse (cue off) segs = Ok blocks ->
  Forall2 starts_at (rebased off ∘ seg_start <$> segs) blocks.
Proof.
  revert blocks. induction segs as [|sg segs IH]; intros blocks Hb; simpl in Hb.
  - injection Hb as <-. constructor.
  - destruct (cue off sg) as [b|] eqn:Hc; [|done]. cbn [bind] in Hb.
    destruct (traverse _ segs) as [bs|]; [|done]. injection Hb as <-.
    cbn [fmap list_fmap]. constructor; [|by apply IH].
    apply cue_inv in Hc as (st & et & Hst & _ & ->). by exists st, et, (seg_text sg).
Qed.

(** A successful cue-based run, file by file: the file at position
    [k + i] contributes the header, when [(k + i) * sz] is zero, and then
    one block per segment, made with the offset [(k + i) * sz * 60]; the
    blocks of the whole run start at the rebased start times. *)
Lemma pieces_vtt client fs dir sz l k ps :
  pieces ext client fs dir sz "vtt" l k = Ok ps ->
  exists (tvs : list TranscriptionVerbose) (bss : list (list string)),
    length tvs = length l
    /\ length bss = length l
    /\ ps = imap (fun i bs => (if (k + Z.of_nat i) * sz =? 0 then header else "")
                              +:+ concat_str bs) bss
    /\ Forall2 starts_at (start_times sz k tvs) (concat bss)
    /\ forall (i : nat) f, l !! i = Some f ->
         exists bytes tv blocks,
           fs !! join dir f = Some bytes
           /\ transcriptions_create ext client bytes = Ok tv
           /\ tvs !! i = Some tv
           /\ traverse (cue ((k + Z.of_nat i) * sz * 60)) (default [] (tv_segments tv))
              = Ok blocks
           /\ bss !! i = Some blocks.
Proof.
  revert k ps. induction l as [|f l IH]; intros k ps H; simpl in H.
  - injection H as <-. exists [], []. do 3 (split; [done|]).
    split; [constructor|]. intros i f Hi. done.
  - destruct (piece _ _ _ _ _ _ _ _) as [p|] eqn:Hp; [|done]. cbn [bind] in H.
    destruct (pieces _ _ _ _ _ _ _ _) as [ps'|] eqn:Hps; [|done]. cbn [bind] in H.
    injection H as <-. apply IH in Hps as (tvs & bss & Hlent & Hlen & -> & Hst & Hps).
    unfold piece in Hp.
    destruct (fs !! join dir f) as [bytes|] eqn:Hf; [|done].
    destruct (transcriptions_create ext client bytes) as [tv|] eqn:Htv; [|done].
    cbn [bind] in Hp. rewrite bool_decide_eq_true_2 in Hp by done.
    unfold convert_to_vtt in Hp. rewrite cues_traverse in Hp.
    destruct (traverse _ _) as [blocks|] eqn:Hb; [|done]. injection Hp as <-.
    exists (tv :: tvs), (blocks :: bss).
    split; [simpl; by rewrite Hlent|]. split; [simpl; by rewrite Hlen|]. split; [|split].
    + cbn [imap]. rewrite Z.add_0_r. f_equal.
      apply imap_ext. intros i bs _. cbn.
      replace (k + 1 + Z.of_nat i) with (k + Z.of_nat (S i)) by lia. done.
    + cbn [start_times concat]. apply Forall2_app; [|done].
      by apply traverse_cue_starts.
    + intros [|i] f' Hi; simpl in Hi.
      * injection Hi as <-. exists bytes, tv, blocks. rewrite Z.add_0_r. done.
      * destruct (Hps i f' Hi) as (bytes' & tv' & blocks' & ? & ? & ? & Hb' & Hi').
        exists bytes', tv', blocks'.
        replace (k + Z.of_nat (S i)) with (k + 1 + Z.of_nat i) by lia. done.
Qed.

Lemma concat_str_concat (bss : list (list string)) :
  concat_str (concat bss) = concat_str (concat_str <$> bss).
Proof.
  induction bss as [|bs bss IH]; [done|].
  cbn [concat fmap list_fmap]. rewrite concat_str_app, IH. done.
Qed.

(** With a slice size other than zero only the first contribution has the
    header. *)
Lemma concat_pieces_header sz (bs : list string) (bss : list (list string)) :
  sz ≠ 0 ->
  concat_str (imap (fun i bs => (if (0 + Z.of_nat i) * sz =? 0 then header else "")
                                +:+ concat_str bs) (bs :: bss))
  = header +:+ concat_str (concat (bs :: bss)).
Proof.
  intros Hsz. cbn [imap]. rewrite concat_str_concat. cbn [fmap list_fmap concat_str foldr].
  change (concat_str ?l) with (foldr String.append "" l).
  rewrite app_str_assoc. f_equal. f_equal. f_equal.
  apply list_eq. intros i. rewrite list_lookup_imap, list_lookup_fmap.
  destruct (bss !! i); [|done]. cbn. 
  destruct (Z.eqb_spec ((0 + Z.of_nat (S i)) * sz) 0) as [E|_]; [nia|done].
Qed.

End Aggregator2.

(** C9.  The credential the service is called with: a key given
    explicitly (not the empty default) is the one every call of the service
    is made with, whatever the environment holds; with the empty default the
    key is read from the environment variable [OPENAI_API_KEY], and the run
    raises before any call when that is not set. *)
Theorem credential_resolution (ext : externals) (audio_dir openai_api_key : string)
    (split_size : Z) (output_format : string) (w : world) :
  (openai_api_key ≠ "" ->
     make_client ext openai_api_key = Ok (Client openai_api_key)
     /\ exists evs,
          trace (get_transcript ext audio_dir openai_api_key split_size output_format w).2
          = trace w ++ evs
          /\ Forall (fun ev => exists p, ev = Transcribed (Client openai_api_key) p) evs)
  /\ (forall k, environ ext !! "OPENAI_API_KEY" = Some k ->
        make_client ext "" = Ok (Client k)
        /\ exists evs,
             trace (get_transcript ext audio_dir "" split_size output_format w).2
             = trace w ++ evs
             /\ Forall (fun ev => exists p, ev = Transcribed (Client k) p) evs)
  /\ (environ ext !! "OPENAI_API_KEY" = None ->
        get_transcript ext audio_dir "" split_size output_format w = (Raise OpenAIError, w)).
Proof.
  split; [|split].
  - intros Hk. assert (make_client ext openai_api_key = Ok (Client openai_api_key)) as E.
    { unfold make_client. by rewrite bool_decide_eq_true_2. }
    split; [done|]. unfold get_transcript. rewrite E. apply transcribe_loop_trace.
  - intros k Hk. assert (make_client ext "" = Ok (Client k)) as E.
    { unfold make_client. simpl. by rewrite Hk. }
    split; [done|]. unfold get_transcript. rewrite E. apply transcribe_loop_trace.
  - intros Hk. unfold get_transcript, make_client. simpl. by rewrite Hk.
Qed.

(** C8.  With the flat-text format the merged document is the whole-clip
    texts of the listed files one after the other, and nothing else: no
    header, no timestamp.  The order is the order in which the directory is
    enumerated, which [get_transcript] does not sort: of the clips 0 and 1,
    whose texts are [Bonjour.] and [Au revoir.], a directory that lists
    clip 1 first gives [Au revoir.Bonjour.], not the texts in the order of
    the recording. *)
Theorem flat_text_in_listing_order :
  (forall (ext : externals) (audio_dir openai_api_key : string) (split_size : Z)
          (w : world),
     (get_transcript ext audio_dir openai_api_key split_size "txt" w).1
     = (client <- make_client ext openai_api_key ;;
        texts <- traverse
                   (fun audio_file =>
                      match files w !! join audio_dir audio_file with
                      | None => Raise FileNotFoundError
                      | Some bytes =>
                          (file_transcription <- transcriptions_create ext client bytes ;;
                           Ok (tv_text file_transcription))
                      end)
                   (listdir ext (files w) audio_dir) ;;
        Ok (concat_str texts))%py)
  /\ demo_clip0 = clip_name "talk" 0 0 600000
  /\ demo_clip1 = clip_name "talk" 1 600000 900000
  /\ (piece (demo_ext [demo_clip1; demo_clip0]) (Client "key") (files demo_world)
        "slices/talk" 10 "txt" 0 demo_clip0 = Ok "Bonjour.")
  /\ (piece (demo_ext [demo_clip1; demo_clip0]) (Client "key") (files demo_world)
        "slices/talk" 10 "txt" 1 demo_clip1 = Ok "Au revoir.")
  /\ (get_transcript (demo_ext [demo_clip1; demo_clip0])
        "slices/talk" "key" 10 "txt" demo_world).1
     = Ok "Au revoir.Bonjour."
  /\ "Au revoir.Bonjour." ≠ "Bonjour." +:+ "Au revoir.".
Proof.
  split; [|repeat split; by vm_compute].
  intros ext audio_dir openai_api_key split_size w.
  unfold get_transcript. destruct (make_client ext openai_api_key) as [client|]; [|done].
  simpl. rewrite transcribe_loop_pieces. simpl.
  generalize (listdir ext (files w) audio_dir) as l. generalize 0 as k.
  assert (forall l k,
    pieces ext client (files w) audio_dir split_size "txt" l k
    = traverse (fun audio_file =>
                   match files w !! join audio_dir audio_file with
                   | None => Raise FileNotFoundError
                   | Some bytes =>
                       (file_transcription <- transcriptions_create ext client bytes ;;
                        Ok (tv_text file_transcription))%py
                   end) l) as H.
  { induction l as [|f l IH]; intros k; simpl; [done|].
    rewrite IH. unfold piece. done. }
  intros k l. by rewrite H.
Qed.

(** In a successful cue-based run the file at position [i] of the listing
    contributes one block per segment of its transcription, with both
    times rebased by [i * split_size * 60] seconds. *)
Lemma rebase_by_position (ext : externals) (audio_dir openai_api_key : string)
    (split_size : Z) (w : world) (t : string) :
  (get_transcript ext audio_dir openai_api_key split_size "vtt" w).1 = Ok t ->
  exists client ps,
    make_client ext openai_api_key = Ok client
    /\ t = concat_str ps
    /\ length ps = length (listdir ext (files w) audio_dir)
    /\ forall (i : nat) audio_file,
         listdir ext (files w) audio_dir !! i = Some audio_file ->
         exists bytes tv blocks,
           files w !! join audio_dir audio_file = Some bytes
           /\ transcriptions_create ext client bytes = Ok tv
           /\ ps !! i = Some ((if Z.of_nat i * split_size =? 0 then header else "")
                               +:+ concat_str blocks)
           /\ Forall2
                (fun sg block =>
                   exists start_time end_time,
                     add (Float (seg_start sg)) (Int (Z.of_nat i * split_size * 60))
                     = Ok (Float (rebased (Z.of_nat i * split_size * 60) (seg_start sg)))
                     /\ add (Float (seg_end sg)) (Int (Z.of_nat i * split_size * 60))
                        = Ok (Float (rebased (Z.of_nat i * split_size * 60) (seg_end sg)))
                     /\ seconds_to_vtt_time
                          (Float (rebased (Z.of_nat i * split_size * 60) (seg_start sg)))
                        = Ok start_time
                     /\ seconds_to_vtt_time
                          (Float (rebased (Z.of_nat i * split_size * 60) (seg_end sg)))
                        = Ok end_time
                     /\ block = cue_block start_time end_time (seg_text sg))
                (default [] (tv_segments tv)) blocks.
Proof.
  intros H. unfold get_transcript in H.
  destruct (make_client ext openai_api_key) as [client|]; [|done]. simpl in H.
  rewrite transcribe_loop_pieces in H.
  destruct (pieces _ _ _ _ _ _ _ _) as [ps|] eqn:Hps; [|done]. injection H as <-.
  apply pieces_vtt in Hps as (tvs & bss & _ & Hlen & -> & _ & Hps).
  eexists client, _. split; [done|]. split; [reflexivity|].
  split; [by rewrite length_imap|].
  intros i f Hi. destruct (Hps i f Hi) as (bytes & tv & blocks & Hf & Htv & _ & Hb & Hp).
  exists bytes, tv, blocks. rewrite Z.add_0_l in *. split; [done|]. split; [done|].
  split; [rewrite list_lookup_imap, Hp; cbn; by rewrite Z.add_0_l|].
  clear -Hb. revert blocks Hb.
  induction (default [] (tv_segments tv)) as [|sg segs IH]; intros blocks Hb; simpl in Hb.
  - injection Hb as <-. constructor.
  - destruct (cue _ sg) as [b|] eqn:Hc; [|done]. simpl in Hb.
    destruct (traverse _ segs) as [bs|]; [|done]. injection Hb as <-.
    constructor; [|by apply IH]. unfold cue in Hc.
    destruct (add (Float (seg_start sg)) _) as [start|] eqn:E1; cbn [bind] in Hc; [|done].
    destruct (add (Float (seg_end sg)) _) as [end_|] eqn:E2; cbn [bind] in Hc; [|done].
    pose proof (add_float_int _ _ _ E1) as ->. pose proof (add_float_int _ _ _ E2) as ->.
    destruct (seconds_to_vtt_time (Float (rebased _ (seg_start sg)))) as [st|] eqn:E3;
      cbn [bind] in Hc; [|done].
    destruct (seconds_to_vtt_time (Float (rebased _ (seg_end sg)))) as [et|] eqn:E4;
      cbn [bind] in Hc; [|done].
    injection Hc as <-. by exists st, et.
Qed.

(** What the sum of a float and a whole number of seconds is: the exact
    sum rounded to the format, a float that is not negative. *)
Lemma rebased_val off x :
  0 <= off < 2 ^ 53 -> nonneg x -> val x + off * second < 2 ^ 2097 ->
  add (Float x) (Int off) = Ok (Float (rebased off x))
  /\ nonneg (rebased off x)
  /\ val (rebased off x) = round_units (val x + off * second)
  /\ (representable (val x + off * second) ->
      val (rebased off x) = val x + off * second).
Proof.
  intros Hoff Hx Hlt. pose proof second_pos.
  destruct (float_of_Z_exact off Hoff) as [Hno Hvo].
  assert (val (rebased off x) = round_units (val x + off * second)) as E.
  { unfold rebased. rewrite fadd_round, Hvo; [done..|]. by rewrite Hvo. }
  split; [by apply add_rebased|]. split.
  { unfold rebased. apply fadd_nonneg; [done..|]. by rewrite Hvo. }
  split; [done|].
  intros Hr. rewrite E. apply round_units_exact; [|done].
  pose proof (nonneg_val _ Hx). nia.
Qed.

(** C4, as it was stated, fails.  The shift is not exact: a segment that
    starts at 0.001 in the clip of index 1, with slices of 10 minutes, is
    rebased to the float nearest to 600.001, which is not 600 seconds after
    0.001; the one is printed [00:00:00.001] and the other [00:10:00.000].
    And the index is the position in the enumeration of the directory:
    the clip of index 1, when it is listed first, is shifted by nothing. *)
Lemma shift_not_exact :
  add (Float (float_lit 1 3)) (Int (1 * 10 * 60)) = Ok (Float (rebased 600 (float_lit 1 3)))
  /\ rebased 600 (float_lit 1 3) = float_lit 600001 3
  /\ val (rebased 600 (float_lit 1 3)) < val (float_lit 1 3) + 600 * second
  /\ seconds_to_vtt_time (Float (float_lit 1 3)) = Ok "00:00:00.001"
  /\ seconds_to_vtt_time (Float (rebased 600 (float_lit 1 3))) = Ok "00:10:00.000"
  /\ demo_clip1 = clip_name "talk" 1 600000 900000
  /\ piece (demo_ext [demo_clip1; demo_clip0]) (Client "key") (files demo_world)
       "slices/talk" 10 "vtt" 0 demo_clip1
     = Ok (header +:+ cue_block "00:00:02.000" "00:00:03.500" "Au revoir.")
  /\ piece (demo_ext [demo_clip0; demo_clip1]) (Client "key") (files demo_world)
       "slices/talk" 10 "vtt" 1 demo_clip1
     = Ok (cue_block "00:10:02.000" "00:10:03.500" "Au revoir.").
Proof. repeat split; by vm_compute. Qed.

(** C4, amended.  In a successful cue-based run, the clip of index [i],
    where the enumeration of the directory has it at position [i],
    contributes one block per segment of its transcription, and both times
    of every such block are the segment's clip-local times plus
    [i * split_size * 60] seconds, by Python's [+] of the float and that
    integer.  That sum is the exact sum rounded to the nearest float, so
    it is the exact sum whenever this is a float.  A segment from 5.0 to 7.0
    of the clip of index 2, with slices of 10 minutes, is rebased to 1205.0
    and 1207.0. *)
Theorem rebase_by_clip_offset (ext : externals) (audio_dir openai_api_key : string)
    (split_size : Z) (w : world) (t : string) :
  (get_transcript ext audio_dir openai_api_key split_size "vtt" w).1 = Ok t ->
  (exists client ps,
     make_client ext openai_api_key = Ok client
     /\ t = concat_str ps
     /\ length ps = length (listdir ext (files w) audio_dir)
     /\ forall (i : nat) base start_time end_time,
          listdir ext (files w) audio_dir !! i
          = Some (clip_name base (Z.of_nat i) start_time end_time) ->
          let offset_seconds := Z.of_nat i * split_size * 60 in
          exists bytes tv blocks,
            files w !! join audio_dir (clip_name base (Z.of_nat i) start_time end_time)
            = Some bytes
            /\ transcriptions_create ext client bytes = Ok tv
            /\ ps !! i = Some ((if Z.of_nat i * split_size =? 0 then header else "")
                                +:+ concat_str blocks)
            /\ Forall2
                 (fun sg block =>
                    exists start_time end_time,
                      add (Float (seg_start sg)) (Int offset_seconds)
                      = Ok (Float (rebased offset_seconds (seg_start sg)))
                      /\ add (Float (seg_end sg)) (Int offset_seconds)
                         = Ok (Float (rebased offset_seconds (seg_end sg)))
                      /\ seconds_to_vtt_time (Float (rebased offset_seconds (seg_start sg)))
                         = Ok start_time
                      /\ seconds_to_vtt_time (Float (rebased offset_seconds (seg_end sg)))
                         = Ok end_time
                      /\ block = cue_block start_time end_time (seg_text sg))
                 (default [] (tv_segments tv)) blocks)
  /\ (forall off x,
        0 <= off < 2 ^ 53 -> nonneg x -> val x + off * second < 2 ^ 2097 ->
        add (Float x) (Int off) = Ok (Float (rebased off x))
        /\ nonneg (rebased off x)
        /\ val (rebased off x) = round_units (val x + off * second)
        /\ (representable (val x + off * second) ->
            val (rebased off x) = val x + off * second))
  /\ add (Float (float_lit 50 1)) (Int (2 * 10 * 60)) = Ok (Float (float_lit 12050 1))
  /\ add (Float (float_lit 70 1)) (Int (2 * 10 * 60)) = Ok (Float (float_lit 12070 1))
  /\ cue (2 * 10 * 60) (Segment (float_lit 50 1) (float_lit 70 1) "text")
     = Ok (cue_block "00:20:05.000" "00:20:07.000" "text").
Proof.
  intros H. split; [|split; [|by vm_compute]].
  - destruct (rebase_by_position _ _ _ _ _ _ H) as (client & ps & Hc & Ht & Hlen & Hps).
    exists client, ps. split; [done|]. split; [done|]. split; [done|].
    intros i base start_time end_time Hi. cbv zeta. by apply Hps.
  - apply rebased_val.
Qed.

(** C5, as it was stated, fails.  With a slice size of 0 every clip has
    the offset 0 and the header comes before the cues of each clip; a
    directory that lists nothing gives a document without header.  The cue
    blocks are not in the order of their rebased start times when the slice
    size is negative, when the service gives the segments of a clip out of
    order, a start time beyond the length of the clip or a negative one,
    and when the slices are so long that their offsets are not floats (here
    the last cue of the clip at position 2 comes out later than the first
    cue of the clip at position 3, all times being within their clips). *)
Lemma header_and_order_fail :
  (get_transcript (demo_ext [demo_clip0; demo_clip1])
     "slices/talk" "key" 0 "vtt" demo_world).1
  = Ok "WEBVTT

00:00:01.500 --> 00:00:04.000
Bonjour.

WEBVTT

00:00:02.000 --> 00:00:03.500
Au revoir.

"
  /\ (get_transcript (demo_ext []) "slices/talk" "key" 10 "vtt" demo_world).1 = Ok ""
  /\ (get_transcript (demo_ext [demo_clip0; demo_clip1])
        "slices/talk" "key" (-10) "vtt" demo_world).1
     = Ok "WEBVTT

00:00:01.500 --> 00:00:04.000
Bonjour.

-1:50:02.000 --> -1:50:03.500
Au revoir.

"
  /\ (get_transcript
        (scripted_ext [("a0", [Segment (float_of_Z 4) (float_of_Z 5) "b";
                               Segment (float_lit 15 1) (float_of_Z 2) "a"])] ["c0"])
        "d" "key" 10 "vtt" four_clips).1
     = Ok "WEBVTT

00:00:04.000 --> 00:00:05.000
b

00:00:01.500 --> 00:00:02.000
a

"
  /\ (get_transcript
        (scripted_ext [("a0", [Segment (float_of_Z 700) (float_of_Z 701) "a"]);
                       ("a1", [Segment (float_of_Z 2) (float_of_Z 3) "b"])] ["c0"; "c1"])
        "d" "key" 10 "vtt" four_clips).1
     = Ok "WEBVTT

00:11:40.000 --> 00:11:41.000
a

00:10:02.000 --> 00:10:03.000
b

"
  /\ (get_transcript
        (scripted_ext [("a0", [Segment (float_of_Z 599) (float_of_Z 600) "a"]);
                       ("a1", [Segment (float_of_Z (-5)) (float_of_Z 3) "b"])] ["c0"; "c1"])
        "d" "key" 10 "vtt" four_clips).1
     = Ok "WEBVTT

00:09:59.000 --> 00:10:00.000
a

00:09:55.000 --> 00:10:03.000
b

"
  /\ nonneg end_of_huge_clip
  /\ val end_of_huge_clip <= huge_split_size * 60 * second
  /\ val (rebased (3 * huge_split_size * 60) (float_of_Z 0))
     < val (rebased (2 * huge_split_size * 60) end_of_huge_clip)
  /\ (get_transcript
        (scripted_ext [("a0", []); ("a1", []);
                       ("a2", [Segment end_of_huge_clip end_of_huge_clip "a"]);
                       ("a3", [Segment (float_of_Z 0) (float_of_Z 0) "b"])]
                      ["c0"; "c1"; "c2"; "c3"])
        "d" "key" huge_split_size "vtt" four_clips).1
     = Ok "WEBVTT

3699475146395308:56:32.000 --> 3699475146395308:56:32.000
a

3699475146395308:22:24.000 --> 3699475146395308:22:24.000
b

".
Proof. repeat split; by vm_compute. Qed.

(** C5, amended.  In a successful cue-based run over a listing that is
    not empty, with a slice size other than zero, the merged document is
    the header, once and first, followed by the cue blocks of the files in
    the order in which they are processed (and, within a file, in the order
    of its segments): the first file contributes the header and its blocks,
    every later file its blocks alone; the blocks of the file at position
    [i] carry times rebased by [i * split_size * 60] seconds.  The blocks of
    the document start, one by one, at the rebased start times of the
    transcriptions; and these are in ascending order when the slice size
    is positive, the whole of the slices is below [2^53] seconds, and the
    service gives, for each clip, start times that are not negative, in
    ascending order and within the clip's [split_size] minutes. *)
Theorem header_once_then_cues (ext : externals) (audio_dir openai_api_key : string)
    (split_size : Z) (w : world) (t : string) :
  split_size ≠ 0 ->
  listdir ext (files w) audio_dir ≠ [] ->
  (get_transcript ext audio_dir openai_api_key split_size "vtt" w).1 = Ok t ->
  exists client (tvs : list TranscriptionVerbose) (bss : list (list string)),
    make_client ext openai_api_key = Ok client
    /\ t = header +:+ concat_str (concat bss)
    /\ length tvs = length (listdir ext (files w) audio_dir)
    /\ length bss = length (listdir ext (files w) audio_dir)
    /\ (forall (i : nat) audio_file,
          listdir ext (files w) audio_dir !! i = Some audio_file ->
          exists bytes tv blocks,
            files w !! join audio_dir audio_file = Some bytes
            /\ transcriptions_create ext client bytes = Ok tv
            /\ tvs !! i = Some tv
            /\ traverse (cue (Z.of_nat i * split_size * 60)) (default [] (tv_segments tv))
               = Ok blocks
            /\ bss !! i = Some blocks
            /\ piece ext client (files w) audio_dir split_size "vtt" (Z.of_nat i) audio_file
               = Ok ((if decide (i = 0%nat) then header else "") +:+ concat_str blocks))
    /\ Forall2 starts_at (start_times split_size 0 tvs) (concat bss)
    /\ (0 < split_size ->
        Z.of_nat (length tvs) * (split_size * 60) < 2 ^ 53 ->
        Forall (well_timed split_size) tvs ->
        StronglySorted le_val (start_times split_size 0 tvs)).
Proof.
  intros Hsz Hne H. unfold get_transcript in H.
  destruct (make_client ext openai_api_key) as [client|]; [|done]. simpl in H.
  rewrite transcribe_loop_pieces in H.
  destruct (pieces _ _ _ _ _ _ _ _) as [ps|] eqn:Hps; [|done]. injection H as <-.
  apply pieces_vtt in Hps as (tvs & bss & Hlent & Hlen & -> & Hst & Hps).
  exists client, tvs, bss. split; [done|]. split.
  - destruct bss as [|bs bss].
    + destruct (listdir ext (files w) audio_dir); done.
    + rewrite concat_pieces_header by done. reflexivity.
  - do 2 (split; [done|]). split; [|split; [done|]].
    + intros i f Hi.
      destruct (Hps i f Hi) as (bytes & tv & blocks & Hf & Htv & Htvs & Hb & Hp).
      exists bytes, tv, blocks. rewrite Z.add_0_l in *. do 5 (split; [done|]).
      unfold piece. rewrite Hf, Htv. cbn [bind]. rewrite bool_decide_eq_true_2 by done.
      unfold convert_to_vtt. rewrite cues_traverse.
      rewrite Hb. cbn [bind]. do 2 f_equal.
      destruct (decide (i = 0%nat)) as [->|Hi0]; [done|].
      destruct (Z.eqb_spec (Z.of_nat i * split_size) 0); [nia|done].
    + intros Hpos Hbound Hall.
      by apply (start_times_sorted split_size 0 tvs).
Qed.

(** C6.  When the service raises for a listed clip, the clips before it
    having been transcribed, [main] raises that very exception: it returns
    no document and writes none.  The files are those [split_file] left,
    and what was done since are calls of the service only.  More generally,
    whenever [main] raises, no document was written and every file that
    existed is unchanged. *)
Theorem service_error_aborts (ext : externals) (file_name : string) (split_size : Z)
    (format openai_api_key : string) (w w1 w2 : world) (audio_dir : string)
    (client : OpenAI) (before : list string) (audio_file : string)
    (after : list string) (t bytes : string) (e : exc) :
  split_file ext file_name split_size w = (Ok audio_dir, w1) ->
  make_client ext openai_api_key = Ok client ->
  listdir ext (files w1) audio_dir = before ++ audio_file :: after ->
  transcribe_loop ext client audio_dir split_size format before 0 "" w1 = (Ok t, w2) ->
  files w1 !! join audio_dir audio_file = Some bytes ->
  transcriptions_create ext client bytes = Raise e ->
  (exists w3,
     main ext file_name split_size format openai_api_key false w = (Raise e, w3)
     /\ files w3 = files w1
     /\ exists evs, trace w3 = trace w1 ++ evs
                    /\ Forall (fun ev => exists p, ev = Transcribed client p) evs)
  /\ (forall only_split e' w',
        main ext file_name split_size format openai_api_key only_split w = (Raise e', w') ->
        (forall p x, files w !! p = Some x -> files w' !! p = Some x)
        /\ exists evs, trace w' = trace w ++ evs
                       /\ Forall (fun ev => forall p, ev ≠ Written p) evs).
Proof.
  intros Hsplit Hclient Hlist Hpre Hbytes Hraise.
  assert (get_transcript ext audio_dir openai_api_key split_size format w1
          = (Raise e, log (Transcribed client (join audio_dir audio_file)) w2)) as Hget.
  { unfold get_transcript. rewrite Hclient, Hlist, transcribe_loop_app, Hpre.
    cbn [transcribe_loop].
    pose proof (transcribe_loop_files ext client audio_dir split_size format before 0 "" w1) as Hfs.
    rewrite Hpre in Hfs. cbn in Hfs. rewrite Hfs, Hbytes, Hraise. done. }
  split.
  - eexists. unfold main. rewrite Hsplit, Hget. split; [done|]. cbn [files log].
    pose proof (transcribe_loop_files ext client audio_dir split_size format before 0 "" w1) as Hfs.
    rewrite Hpre in Hfs. split; [done|].
    destruct (transcribe_loop_trace ext client audio_dir split_size format before 0 "" w1)
      as (evs & Ht & Hevs). rewrite Hpre in Ht. cbn in Ht.
    exists (evs ++ [Transcribed client (join audio_dir audio_file)]).
    cbn [trace log]. rewrite Ht, app_assoc. split; [done|].
    apply Forall_app. split; [done|]. repeat constructor. eauto.
  - intros only_split e' w' Hmain. unfold main in Hmain. rewrite Hsplit in Hmain.
    apply split_file_ok in Hsplit as (bytes0 & src & Hf & Hd & Hsz & -> & ->).
    destruct (run_exports ext src (stem file_name)
                (clips split_size (Z.of_nat (length src))) w) as [Ht _].
    { apply clip_paths_NoDup, stem_no_slash. }
    destruct only_split; [done|].
    destruct (get_transcript _ _ _ _ _ _) as [[t'|e''] w''] eqn:Hg; [done|].
    injection Hmain as <- <-.
    unfold get_transcript in Hg. rewrite Hclient in Hg.
    match type of Hg with transcribe_loop ?a ?b ?c ?d ?f ?g ?h ?i ?j = _ =>
      pose proof (transcribe_loop_files a b c d f g h i j) as Hfs;
      destruct (transcribe_loop_trace a b c d f g h i j) as (evs & Htr & Hevs) end.
    rewrite Hg in Hfs, Htr. cbn in Hfs, Htr. split.
    + intros p x Hp. rewrite Hfs. by apply run_keeps.
    + eexists. rewrite Htr, Ht, <- app_assoc. split; [done|].
      apply Forall_app. split.
      * apply Forall_fmap, Forall_forall. intros c _ p. done.
      * eapply Forall_impl; [done|]. intros ev [p ->] p'. done.
Qed.

(** C3.  [get_transcript] takes the clips in the order in which the
    directory is enumerated and gives the clip at position [i] of that
    enumeration the offset of clip [i]; it does not sort.  Two
    enumerations of the same two clip files give two different documents:
    when clip 1 is listed first, its cue is put at the start of the
    recording and the cue of clip 0 ten minutes later. *)
Theorem listing_order_changes_transcript :
  [demo_clip1; demo_clip0] ≡ₚ [demo_clip0; demo_clip1]
  /\ (get_transcript (demo_ext [demo_clip0; demo_clip1])
        "slices/talk" "key" 10 "vtt" demo_world).1
     = Ok "WEBVTT

00:00:01.500 --> 00:00:04.000
Bonjour.

00:10:02.000 --> 00:10:03.500
Au revoir.

"
  /\ (get_transcript (demo_ext [demo_clip1; demo_clip0])
        "slices/talk" "key" 10 "vtt" demo_world).1
     = Ok "WEBVTT

00:00:02.000 --> 00:00:03.500
Au revoir.

00:10:01.500 --> 00:10:04.000
Bonjour.

"
  /\ (get_transcript (demo_ext [demo_clip0; demo_clip1])
        "slices/talk" "key" 10 "txt" demo_world).1
     = Ok "Bonjour.Au revoir."
  /\ (get_transcript (demo_ext [demo_clip1; demo_clip0])
        "slices/talk" "key" 10 "txt" demo_world).1
     = Ok "Au revoir.Bonjour.".
Proof.
  split; [apply Permutation_swap|]. repeat split; vm_compute; reflexivity.
Qed.

Lemma split_file_partition_witness :
  files demo_world !! "talk.v2.mp3" = Some "recording"
  /\ decode_mp3 (demo_ext []) "recording" = Ok demo_audio
  /\ 0 < 10
  /\ clips 10 (Z.of_nat (length demo_audio)) = [(0, 0, 5)].
Proof.
  split; [vm_compute; reflexivity|]. split; [reflexivity|]. split; [lia|].
  apply (split_file_partition (demo_ext []) "talk.v2.mp3" 10 demo_world
           "recording" demo_audio); [vm_compute; reflexivity|reflexivity|lia|].
  simpl. lia.
Defined.

Lemma split_file_idempotent_witness :
  files demo_world !! "talk.v2.mp3" = Some "recording"
  /\ decode_mp3 (demo_ext []) "recording" = Ok demo_audio
  /\ 10 ≠ 0
  /\ exists dir w',
       split_file (demo_ext []) "talk.v2.mp3" 10 demo_world = (Ok dir, w')
       /\ split_file (demo_ext []) "talk.v2.mp3" 10 w' = (Ok dir, w').
Proof.
  split; [vm_compute; reflexivity|]. split; [reflexivity|]. split; [lia|].
  destruct (split_file_idempotent (demo_ext []) "talk.v2.mp3" 10 demo_world
              "recording" demo_audio) as (dir & w' & H1 & _ & _ & _ & _ & _ & H2);
    [vm_compute; reflexivity|reflexivity|lia|].
  by exists dir, w'.
Defined.

Lemma stem_before_first_dot_witness :
  main (demo_ext []) "talk.v2.mp3" 10 "vtt" "key" false demo_world
  = (Ok (), (main (demo_ext []) "talk.v2.mp3" 10 "vtt" "key" false demo_world).2)
  /\ last (trace (main (demo_ext []) "talk.v2.mp3" 10 "vtt" "key" false demo_world).2)
     = Some (Written "talk.vtt").
Proof.
  split; [vm_compute; reflexivity|].
  destruct (stem_before_first_dot "talk.v2.mp3") as (_ & _ & H & _).
  apply (H (demo_ext []) 10 "vtt" "key" demo_world). vm_compute; reflexivity.
Defined.

Lemma credential_resolution_witness :
  "sk-1" ≠ ""
  /\ make_client (demo_ext []) "sk-1" = Ok (Client "sk-1").
Proof.
  split; [done|].
  apply (credential_resolution (demo_ext []) "slices/talk" "sk-1" 10 "vtt" demo_world).
  done.
Defined.

Lemma rebase_by_clip_offset_witness :
  (get_transcript (demo_ext [demo_clip0; demo_clip1])
     "slices/talk" "key" 10 "vtt" demo_world).1
  = Ok "WEBVTT

00:00:01.500 --> 00:00:04.000
Bonjour.

00:10:02.000 --> 00:10:03.500
Au revoir.

"
  /\ listdir (demo_ext [demo_clip0; demo_clip1]) (files demo_world) "slices/talk" !! 1%nat
     = Some (clip_name "talk" (Z.of_nat 1) 600000 900000)
  /\ exists bytes tv blocks,
       files demo_world !! join "slices/talk" (clip_name "talk" (Z.of_nat 1) 600000 900000)
       = Some bytes
       /\ transcriptions_create (demo_ext [demo_clip0; demo_clip1]) (Client "key") bytes
          = Ok tv
       /\ Forall2
            (fun sg block =>
               exists start_time end_time,
                 seconds_to_vtt_time
                   (Float (rebased (Z.of_nat 1 * 10 * 60) (seg_start sg))) = Ok start_time
                 /\ seconds_to_vtt_time
                      (Float (rebased (Z.of_nat 1 * 10 * 60) (seg_end sg))) = Ok end_time
                 /\ block = cue_block start_time end_time (seg_text sg))
            (default [] (tv_segments tv)) blocks.
Proof.
  split; [vm_compute; reflexivity|]. split; [vm_compute; reflexivity|].
  destruct (rebase_by_clip_offset (demo_ext [demo_clip0; demo_clip1])
              "slices/talk" "key" 10 demo_world _ ltac:(vm_compute; reflexivity))
    as [(client & ps & Hc & _ & _ & H) _].
  destruct (H 1%nat "talk" 600000 900000 ltac:(vm_compute; reflexivity))
    as (bytes & tv & blocks & Hf & Htv & _ & HF).
  injection Hc as <-. exists bytes, tv, blocks. split; [done|]. split; [done|].
  eapply Forall2_impl; [exact HF|]. cbv beta.
  intros sg block (st & et & _ & _ & E1 & E2 & ->). by exists st, et.
Defined.

Lemma header_once_then_cues_witness :
  10 ≠ 0
  /\ listdir (demo_ext [demo_clip0; demo_clip1]) (files demo_world) "slices/talk" ≠ []
  /\ (get_transcript (demo_ext [demo_clip0; demo_clip1])
        "slices/talk" "key" 10 "vtt" demo_world).1
     = Ok "WEBVTT

00:00:01.500 --> 00:00:04.000
Bonjour.

00:10:02.000 --> 00:10:03.500
Au revoir.

"
  /\ exists (tvs : list TranscriptionVerbose) (bss : list (list string)),
       "WEBVTT

00:00:01.500 --> 00:00:04.000
Bonjour.

00:10:02.000 --> 00:10:03.500
Au revoir.

" = header +:+ concat_str (concat bss)
       /\ Forall2 starts_at (start_times 10 0 tvs) (concat bss)
       /\ Forall (well_timed 10) tvs
       /\ StronglySorted le_val (start_times 10 0 tvs).
Proof.
  split; [lia|]. split; [done|]. split; [vm_compute; reflexivity|].
  destruct (header_once_then_cues (demo_ext [demo_clip0; demo_clip1])
              "slices/talk" "key" 10 demo_world _ ltac:(lia) ltac:(done)
              ltac:(vm_compute; reflexivity))
    as (client & tvs & bss & _ & H & Hlen & _ & Hfiles & Hst & Hsorted).
  exists tvs, bss. split; [done|]. split; [done|].
  assert (Forall (well_timed 10) tvs) as Hall.
  { destruct (Hfiles 0%nat demo_clip0 eq_refl) as (b0 & tv0 & _ & Hf0 & Ht0 & Hl0 & _).
    destruct (Hfiles 1%nat demo_clip1 eq_refl) as (b1 & tv1 & _ & Hf1 & Ht1 & Hl1 & _).
    vm_compute in Hf0, Hf1. injection Hf0 as <-. injection Hf1 as <-.
    injection Ht0 as <-. injection Ht1 as <-.
    destruct tvs as [|a [|b [|]]]; try done.
    injection Hl0 as ->. injection Hl1 as ->.
    repeat constructor; vm_compute; done. }
  split; [done|]. apply Hsorted; [lia| |done].
  rewrite Hlen. by vm_compute.
Defined.

Lemma service_error_aborts_witness :
  let ext := demo_ext [demo_clip0; "talk_0_0_5.mp3"] in
  let w1 := (split_file ext "talk.v2.mp3" 10 demo_world).2 in
  let w2 := (transcribe_loop ext (Client "key") "slices/talk" 10 "vtt"
               [demo_clip0] 0 "" w1).2 in
  split_file ext "talk.v2.mp3" 10 demo_world = (Ok "slices/talk", w1)
  /\ files w1 !! join "slices/talk" "talk_0_0_5.mp3" = Some "s0s1s2s3s4"
  /\ transcriptions_create ext (Client "key") "s0s1s2s3s4" = Raise (APIError 400)
  /\ exists w3,
       main ext "talk.v2.mp3" 10 "vtt" "key" false demo_world = (Raise (APIError 400), w3)
       /\ files w3 = files w1.
Proof.
  intros ext w1 w2.
  split; [vm_compute; reflexivity|]. split; [vm_compute; reflexivity|].
  split; [vm_compute; reflexivity|].
  destruct (service_error_aborts ext "talk.v2.mp3" 10 "vtt" "key" demo_world w1 w2
              "slices/talk" (Client "key") [demo_clip0] "talk_0_0_5.mp3" []
              "WEBVTT

00:00:01.500 --> 00:00:04.000
Bonjour.

" "s0s1s2s3s4" (APIError 400)) as [(w3 & H1 & H2 & _) _];
    try (vm_compute; reflexivity).
  by exists w3.
Defined.
